(** * k8s-mcp: the tool handlers of [mcp-k8s.py], embedded and verified

    The module [mcp-k8s.py] registers seven tool handlers on a FastMCP
    server.  Each handler makes one call on the Kubernetes client [v1],
    formats what comes back as a string, and turns any [Exception] raised
    inside its [try] block into an error string.  The module also loads the
    Kubernetes configuration when it is imported and parses two command-line
    options when it is run as a script.

    The embedding is shallow.  Python statements become terms of a small
    state-and-exception monad [Py]: the state carries the records written
    through [logger], the trace of calls made on the external libraries and
    the state of the world outside the process (the cluster).  The external
    libraries ([kubernetes.config], [kubernetes.client.CoreV1Api]) are not
    part of the repository; they are a record of operations over that
    outside state, each of which may return or raise. *)

From Stdlib Require Import String Ascii List ZArith Bool Lia.
Import ListNotations.
Open Scope list_scope.
Open Scope string_scope.

(** ** Strings *)

(** The line feed character, written [\n] in the Python source. *)
Definition nl : string := String (ascii_of_nat 10) EmptyString.

(** [sep.join(parts)] of Python. *)
Fixpoint join (sep : string) (parts : list string) : string :=
  match parts with
  | [] => ""
  | [p] => p
  | p :: rest => p ++ sep ++ join sep rest
  end.

(** [s.startswith(p)]. *)
Definition startswith (s p : string) : bool := String.prefix p s.

(** ** Python values that the handlers format

    An f-string field [{x}] is replaced by [str(x)].  [Str] is the
    [__str__] protocol for the types that occur in the handlers. *)

Class Str (A : Type) := str : A -> string.

#[global] Instance Str_string : Str string := fun s => s.

(** [None] prints as ["None"]; an attribute of the Kubernetes models that
    may be unset has an [option] type. *)
#[global] Instance Str_option {A} `{Str A} : Str (option A) :=
  fun o => match o with Some a => str a | None => "None" end.

(** Truthiness of the values that the handlers test with [if x] and
    [if not x]. *)
Class Truthy (A : Type) := truthy : A -> bool.

#[global] Instance Truthy_string : Truthy string :=
  fun s => match s with EmptyString => false | String _ _ => true end.

#[global] Instance Truthy_list {A} : Truthy (list A) :=
  fun l => match l with [] => false | _ :: _ => true end.

#[global] Instance Truthy_option {A} `{Truthy A} : Truthy (option A) :=
  fun o => match o with Some a => truthy a | None => false end.

(** ** Exceptions

    [exn] is an instance of Python's class [Exception]: the class name and
    the text [str(e)] gives.  Every handler catches with
    [except Exception as e]. *)

Record exn := mkExn { exn_class : string; exn_text : string }.

#[global] Instance Str_exn : Str exn := exn_text.

(** The exceptions that the interpreter itself raises inside the handlers. *)
Definition AttributeError_None (attr : string) : exn :=
  mkExn "AttributeError" ("'NoneType' object has no attribute '" ++ attr ++ "'").

Definition TypeError_not_subscriptable : exn :=
  mkExn "TypeError" "'NoneType' object is not subscriptable".

Definition IndexError_list : exn :=
  mkExn "IndexError" "list index out of range".

(** ** The Kubernetes models read by the handlers

    Only the attributes that the source reads are kept.  The attributes
    are optional in the client's model classes, except the [items] of a
    list object, [V1Event.involved_object] and the elements of a list. *)

Module models.

(** A [datetime], known by its printed form. *)
Record datetime := { datetime_str : string }.
#[global] Instance Str_datetime : Str datetime := datetime_str.

Record V1ObjectMeta := {
  name : option string;
  namespace : option string;
  creation_timestamp : option datetime
}.

(** [V1ContainerState], known by its printed form. *)
Record V1ContainerState := { state_str : string }.
#[global] Instance Str_V1ContainerState : Str V1ContainerState := state_str.

Record V1ContainerStatus := { state : option V1ContainerState }.

Record V1PodStatus := {
  phase : option string;
  container_statuses : option (list V1ContainerStatus);
  pod_ip : option string
}.

Record V1PodSpec := { node_name : option string }.

Record V1Pod := {
  metadata : option V1ObjectMeta;
  status : option V1PodStatus;
  spec : option V1PodSpec
}.

Record V1PodList := { items : list V1Pod }.

Record V1ObjectReference := { ref_name : option string }.

Record V1EventSource := { component : option string }.

Record V1Event := {
  involved_object : V1ObjectReference;
  message : option string;
  reason : option string;
  type : option string;
  source : option V1EventSource;
  first_timestamp : option datetime;
  last_timestamp : option datetime
}.

Record V1EventList := { event_items : list V1Event }.

End models.

(** ** Request bodies

    The manifests are Python dict literals of strings, dicts and lists.
    A dict keeps its keys in insertion order. *)

#[local] Set Warnings "-register-all".

Inductive pyobj :=
| PyStr (s : string)
| PyList (l : list pyobj)
| PyDict (d : list (string * pyobj)).

(** The value stored under [key], the first one in order. *)
Fixpoint assoc (key : string) (d : list (string * pyobj)) : option pyobj :=
  match d with
  | [] => None
  | (k, v) :: d' => if String.eqb k key then Some v else assoc key d'
  end.

(** [o[key]] on a manifest; [None] here when [o] is not a dict or has no
    such key. *)
Definition item (key : string) (o : pyobj) : option pyobj :=
  match o with PyDict d => assoc key d | _ => None end.

(** [o[k1][k2]...] along a list of keys. *)
Fixpoint path (ks : list string) (o : pyobj) : option pyobj :=
  match ks with
  | [] => Some o
  | k :: ks' =>
      match item k o with
      | Some o' => path ks' o'
      | None => None
      end
  end.

(** ** Calls on the external libraries *)

(** The methods of [kubernetes.client.CoreV1Api] that the handlers call,
    each with the arguments it is called with.  [v1.m(args)] is the request
    [client.m args]. *)
Module client.

Inductive request :=
| list_namespaced_pod (namespace : string)
| list_pod_for_all_namespaces
| read_namespaced_pod_log (name namespace : string) (tail_lines : Z)
| create_namespaced_pod (namespace : string) (body : pyobj)
| create_namespace (body : pyobj)
| delete_namespaced_pod (name namespace : string)
| delete_namespace (name : string)
| list_namespaced_event (namespace : string).

(** What a method returns.  The handlers drop what the create and delete
    methods return. *)
Definition response (r : request) : Type :=
  match r with
  | list_namespaced_pod _ => models.V1PodList
  | list_pod_for_all_namespaces => models.V1PodList
  | read_namespaced_pod_log _ _ _ => string
  | create_namespaced_pod _ _ => unit
  | create_namespace _ => unit
  | delete_namespaced_pod _ _ => unit
  | delete_namespace _ => unit
  | list_namespaced_event _ => models.V1EventList
  end.

End client.

(** The calls that the module makes on the [kubernetes] package. *)
Inductive ext_call :=
| config_load_kube_config (context : string)
| config_load_incluster_config
| client_CoreV1Api
| v1_call (r : client.request).

(** ** Logging *)

Inductive level := INFO | WARNING | ERROR.

Definition record : Type := level * string.

(** ** The monad of module code *)

Inductive outcome (A : Type) :=
| Returned (a : A)
| Raised (e : exn).
Arguments Returned {A} a.
Arguments Raised {A} e.

Section Program.

(** [K] is the state of everything outside the process: the kube-config
    files, the service-account token, the cluster. *)
Variable K : Type.

Record world := mkWorld {
  logged : list record;
  calls : list ext_call;
  outside : K
}.

Definition Py (A : Type) : Type := world -> outcome A * world.

Definition ret {A} (a : A) : Py A := fun w => (Returned a, w).

Definition raise {A} (e : exn) : Py A := fun w => (Raised e, w).

Definition bind {A B} (m : Py A) (f : A -> Py B) : Py B :=
  fun w => match m w with
           | (Returned a, w') => f a w'
           | (Raised e, w') => (Raised e, w')
           end.

(** [try: body except Exception as e: handler(e)]. *)
Definition try_except {A} (body : Py A) (handler : exn -> Py A) : Py A :=
  fun w => match body w with
           | (Returned a, w') => (Returned a, w')
           | (Raised e, w') => handler e w'
           end.

Definition log (l : level) (msg : string) : Py unit :=
  fun w => (Returned tt,
            mkWorld (logged w ++ [(l, msg)])%list (calls w) (outside w)).

(** A call on an external library: it is recorded in the trace, and the
    library decides the result and the new outside state. *)
Definition external {A} (c : ext_call) (op : K -> outcome A * K) : Py A :=
  fun w => let (r, k) := op (outside w) in
           (r, mkWorld (logged w) (calls w ++ [c])%list k).

(** A client object: what each request does outside, and whether it
    returns or raises. *)
Definition CoreV1Api : Type :=
  forall r : client.request, K -> outcome (client.response r) * K.

(** [v1.m(args)]. *)
Definition call (v1 : CoreV1Api) (r : client.request)
  : Py (client.response r) :=
  external (v1_call r) (v1 r).

End Program.

Arguments mkWorld {K}.
Arguments logged {K}.
Arguments calls {K}.
Arguments outside {K}.
Arguments ret {K A}.
Arguments raise {K A}.
Arguments bind {K A B}.
Arguments try_except {K A}.
Arguments log {K}.
Arguments external {K A}.
Arguments call {K}.

Declare Scope py_scope.
Delimit Scope py_scope with py.
Notation "x <- m ;; k" := (bind m (fun x => k))
  (at level 100, m at next level, right associativity) : py_scope.
Notation "m ;;; k" := (bind m (fun _ => k))
  (at level 100, right associativity) : py_scope.
Open Scope py_scope.

(** ** Parameters with defaults

    A parameter declared [p: T = d] is bound to [d] when the call leaves
    it out. *)

Inductive arg (A : Type) :=
| Omitted
| Given (a : A).
Arguments Omitted {A}.
Arguments Given {A} a.

Definition bound {A} (default : A) (x : arg A) : A :=
  match x with Omitted => default | Given a => a end.

(** ** The external libraries *)

(** [kubernetes.config] and the constructor [kubernetes.client.CoreV1Api]. *)
Record kubernetes (K : Type) := {
  load_kube_config : string -> K -> outcome unit * K;
  load_incluster_config : K -> outcome unit * K;
  new_CoreV1Api : K -> outcome (CoreV1Api K) * K
}.
Arguments load_kube_config {K}.
Arguments load_incluster_config {K}.
Arguments new_CoreV1Api {K}.

(** ** Attribute access and subscripts on values that may be [None] *)

Definition getattr {K A B} (o : option A) (attr : string) (proj : A -> B)
  : Py K B :=
  match o with
  | Some a => ret (proj a)
  | None => raise (AttributeError_None attr)
  end.

(** [o[0]]. *)
Definition subscript0 {K A} (o : option (list A)) : Py K A :=
  match o with
  | None => raise TypeError_not_subscriptable
  | Some [] => raise IndexError_list
  | Some (a :: _) => ret a
  end.

(** [for x in xs: acc.append(body(x))], starting from the list [acc]. *)
Fixpoint for_append {K A} (body : A -> Py K string) (xs : list A)
  (acc : list string) : Py K (list string) :=
  match xs with
  | [] => ret acc
  | x :: xs' => d <- body x ;; for_append body xs' (acc ++ [d])%list
  end.

(** [a == b] where [a] may be [None] and [b] is a [str]. *)
Definition eq_str (a : option string) (b : string) : bool :=
  match a with Some s => String.eqb s b | None => false end.

(** ** Module initialisation (lines 20-33) *)

Section Init.

Context {K : Type}.
Variable kube : kubernetes K.

Definition load_configuration : Py K unit :=
  try_except
    (external (config_load_kube_config "kind-mcp-server")
       (load_kube_config kube "kind-mcp-server") ;;;
     log INFO "✅ 成功从默认位置加载Kubernetes配置")
    (fun e =>
       log WARNING ("⚠️ 无法从默认位置加载Kubernetes配置: " ++ str e) ;;;
       try_except
         (external config_load_incluster_config (load_incluster_config kube) ;;;
          log INFO "✅ 成功从集群内部加载Kubernetes配置")
         (fun e => log ERROR ("❌ 无法加载Kubernetes配置: " ++ str e))).

(** Runs the configuration loading, then [v1 = client.CoreV1Api()]; the
    value is the module global [v1]. *)
Definition module_init : Py K (CoreV1Api K) :=
  load_configuration ;;;
  external client_CoreV1Api (new_CoreV1Api kube).

End Init.

(** ** Tool calls

    [@mcp.tool()] registers each handler under its function name; a tool
    call names a handler and gives its arguments. *)

Inductive invocation :=
| tool_get_pods (namespace : arg (option string))
| tool_get_pod_logs (pod_name : string) (namespace : arg string)
    (tail_lines : arg Z)
| tool_create_pod (pod_name : string) (namespace image : arg string)
| tool_create_namespace (namespace : string)
| tool_delete_pod (pod_name : string) (namespace : arg string)
| tool_delete_namespace (namespace : string)
| tool_get_pod_events (pod_name : string) (namespace : arg string).

(** ** The tool handlers (lines 35-191)

    The handlers are coroutines without an [await] inside: awaiting one
    runs its body from start to end.  [v1] is the module global. *)

Section Handlers.

Context {K : Type}.
Variable v1 : CoreV1Api K.

(** The f-string of lines 53-61; the fields are evaluated in order. *)
Definition pod_details (pod : models.V1Pod) : Py K string :=
  f_name <- getattr (models.metadata pod) "name" models.name ;;
  f_namespace <- getattr (models.metadata pod) "namespace" models.namespace ;;
  f_phase <- getattr (models.status pod) "phase" models.phase ;;
  statuses <- getattr (models.status pod) "container_statuses"
                models.container_statuses ;;
  first <- subscript0 statuses ;;
  f_ip <- getattr (models.status pod) "pod_ip" models.pod_ip ;;
  f_node <- getattr (models.spec pod) "node_name" models.node_name ;;
  f_created <- getattr (models.metadata pod) "creation_timestamp"
                 models.creation_timestamp ;;
  ret (nl ++ "Pod: " ++ str f_name ++ nl
       ++ "Namespace: " ++ str f_namespace ++ nl
       ++ "Status: " ++ str f_phase ++ nl
       ++ "Container Status: " ++ str (models.state first) ++ nl
       ++ "IP: " ++ str f_ip ++ nl
       ++ "Node: " ++ str f_node ++ nl
       ++ "Created: " ++ str f_created ++ nl).

(** Lines 43-46: the list call that [get_pods] makes. *)
Definition list_pods (namespace : option string) : Py K models.V1PodList :=
  match namespace with
  | Some ns =>
      if truthy ns then call v1 (client.list_namespaced_pod ns)
      else call v1 client.list_pod_for_all_namespaces
  | None => call v1 client.list_pod_for_all_namespaces
  end.

Definition get_pods (namespace : arg (option string)) : Py K string :=
  let namespace := bound None namespace in
  try_except
    (pods <- list_pods namespace ;;
     if negb (truthy (models.items pods)) then ret "No pods found."
     else
       pod_info <- for_append pod_details (models.items pods) [] ;;
       ret (join (nl ++ "---" ++ nl) pod_info))
    (fun e =>
       log ERROR ("获取 Pod 信息时出错: " ++ str e) ;;;
       ret ("Error retrieving pods: " ++ str e)).

Definition get_pod_logs (pod_name : string) (namespace : arg string)
  (tail_lines : arg Z) : Py K string :=
  let namespace := bound "default" namespace in
  let tail_lines := bound 50%Z tail_lines in
  try_except
    (logs <- call v1
               (client.read_namespaced_pod_log pod_name namespace tail_lines) ;;
     ret logs)
    (fun e =>
       log ERROR ("获取 Pod 日志时出错: " ++ str e) ;;;
       ret ("Error retrieving pod logs: " ++ str e)).

(** The dict literal of lines 99-106. *)
Definition pod_manifest (pod_name namespace image : string) : pyobj :=
  PyDict
    [("apiVersion", PyStr "v1");
     ("kind", PyStr "Pod");
     ("metadata",
      PyDict [("name", PyStr pod_name); ("namespace", PyStr namespace)]);
     ("spec",
      PyDict
        [("containers",
          PyList [PyDict [("name", PyStr pod_name);
                          ("image", PyStr image)]])])].

Definition create_pod (pod_name : string) (namespace : arg string)
  (image : arg string) : Py K string :=
  let namespace := bound "default" namespace in
  let image := bound "nginx" image in
  try_except
    (let pod_manifest := pod_manifest pod_name namespace image in
     call v1 (client.create_namespaced_pod namespace pod_manifest) ;;;
     ret ("Pod " ++ pod_name ++ " created in namespace " ++ namespace ++ "."))
    (fun e =>
       log ERROR ("创建 Pod 时出错: " ++ str e) ;;;
       ret ("Error creating pod: " ++ str e)).

(** The dict literal of lines 121-125. *)
Definition namespace_manifest (namespace : string) : pyobj :=
  PyDict
    [("apiVersion", PyStr "v1");
     ("kind", PyStr "Namespace");
     ("metadata", PyDict [("name", PyStr namespace)])].

Definition create_namespace (namespace : string) : Py K string :=
  try_except
    (let namespace_manifest := namespace_manifest namespace in
     call v1 (client.create_namespace namespace_manifest) ;;;
     ret ("Namespace " ++ namespace ++ " created."))
    (fun e =>
       log ERROR ("创建命名空间时出错: " ++ str e) ;;;
       ret ("Error creating namespace: " ++ str e)).

Definition delete_pod (pod_name : string) (namespace : arg string)
  : Py K string :=
  let namespace := bound "default" namespace in
  try_except
    (call v1 (client.delete_namespaced_pod pod_name namespace) ;;;
     ret ("Pod " ++ pod_name ++ " deleted from namespace " ++ namespace ++ "."))
    (fun e =>
       log ERROR ("删除 Pod 时出错: " ++ str e) ;;;
       ret ("Error deleting pod: " ++ str e)).

Definition delete_namespace (namespace : string) : Py K string :=
  try_except
    (call v1 (client.delete_namespace namespace) ;;;
     ret ("Namespace " ++ namespace ++ " deleted."))
    (fun e =>
       log ERROR ("删除命名空间时出错: " ++ str e) ;;;
       ret ("Error deleting namespace: " ++ str e)).

(** The f-string of lines 177-186; it opens with three line feeds. *)
Definition event_details (event : models.V1Event) : Py K string :=
  f_component <- getattr (models.source event) "component" models.component ;;
  ret (nl ++ nl ++ nl
       ++ "Event: " ++ str (models.message event) ++ nl
       ++ "Reason: " ++ str (models.reason event) ++ nl
       ++ "Type: " ++ str (models.type event) ++ nl
       ++ "Source: " ++ str f_component ++ nl
       ++ "First Seen: " ++ str (models.first_timestamp event) ++ nl
       ++ "Last Seen: " ++ str (models.last_timestamp event) ++ nl).

(** The list comprehension of line 170. *)
Definition pod_events_of (pod_name : string) (events : models.V1EventList)
  : list models.V1Event :=
  filter
    (fun event =>
       eq_str (models.ref_name (models.involved_object event)) pod_name)
    (models.event_items events).

Definition get_pod_events (pod_name : string) (namespace : arg string)
  : Py K string :=
  let namespace := bound "default" namespace in
  try_except
    (events <- call v1 (client.list_namespaced_event namespace) ;;
     let pod_events := pod_events_of pod_name events in
     if negb (truthy pod_events) then ret "No events found for this pod."
     else
       event_info <- for_append event_details pod_events [] ;;
       ret (join (nl ++ "---" ++ nl) event_info))
    (fun e =>
       log ERROR ("获取 Pod 事件时出错: " ++ str e) ;;;
       ret ("Error retrieving pod events: " ++ str e)).

(** The handler that a tool call runs. *)
Definition invoke (i : invocation) : Py K string :=
  match i with
  | tool_get_pods namespace => get_pods namespace
  | tool_get_pod_logs pod_name namespace tail_lines =>
      get_pod_logs pod_name namespace tail_lines
  | tool_create_pod pod_name namespace image =>
      create_pod pod_name namespace image
  | tool_create_namespace namespace => create_namespace namespace
  | tool_delete_pod pod_name namespace => delete_pod pod_name namespace
  | tool_delete_namespace namespace => delete_namespace namespace
  | tool_get_pod_events pod_name namespace =>
      get_pod_events pod_name namespace
  end.

End Handlers.

(** ** The documented failure formats

    [error_prefix] is the table of error prefixes that the handlers are
    documented with.  [external_call] names the one request that each
    tool call sends; the theorems compare the handlers with both. *)

Definition error_prefix (i : invocation) : string :=
  match i with
  | tool_get_pods _ => "Error retrieving pods:"
  | tool_get_pod_logs _ _ _ => "Error retrieving pod logs:"
  | tool_create_pod _ _ _ => "Error creating pod:"
  | tool_create_namespace _ => "Error creating namespace:"
  | tool_delete_pod _ _ => "Error deleting pod:"
  | tool_delete_namespace _ => "Error deleting namespace:"
  | tool_get_pod_events _ _ => "Error retrieving pod events:"
  end.

Definition external_call (i : invocation) : client.request :=
  match i with
  | tool_get_pods namespace =>
      match bound None namespace with
      | Some ns =>
          if truthy ns then client.list_namespaced_pod ns
          else client.list_pod_for_all_namespaces
      | None => client.list_pod_for_all_namespaces
      end
  | tool_get_pod_logs pod_name namespace tail_lines =>
      client.read_namespaced_pod_log pod_name (bound "default" namespace)
        (bound 50%Z tail_lines)
  | tool_create_pod pod_name namespace image =>
      client.create_namespaced_pod (bound "default" namespace)
        (pod_manifest pod_name (bound "default" namespace)
           (bound "nginx" image))
  | tool_create_namespace namespace =>
      client.create_namespace (namespace_manifest namespace)
  | tool_delete_pod pod_name namespace =>
      client.delete_namespaced_pod pod_name (bound "default" namespace)
  | tool_delete_namespace namespace => client.delete_namespace namespace
  | tool_get_pod_events _ namespace =>
      client.list_namespaced_event (bound "default" namespace)
  end.

(** ** The command line (lines 217-230)

    [argparse] is the standard library's.  What follows is its
    [parse_args] as CPython 3.11 has it, function by function, for a
    parser built as the script builds it: the automatic [-h]/[--help]
    action, which takes no argument, and [store] actions that take one.
    The parts of [parse_args] that serve what such a parser does not
    have (positional arguments, mutually exclusive groups, required
    options, choices, argument files) are left out.  [argv] is
    [sys.argv[1:]].  Strings are byte strings; the characters that the
    parser looks for (the dash, the equal sign, the blank) are ASCII. *)

Module argparse.

#[local] Set Warnings "-register-all".

(** The values of the attributes of a namespace: a string that was not
    converted, the result of [type=int], or a list of values. *)
Inductive value :=
| VStr (s : string)
| VInt (z : Z)
| VList (l : list value).

Inductive kind :=
| store (type : option (string -> option value)) (default : value)
| help.

Record Action := {
  option_strings : list string;
  dest : string;
  action : kind
}.

Definition ArgumentParser_t : Type := list Action.

Definition Namespace : Type := list (string * value).

Inductive result :=
| Parsed (args : Namespace)
| SystemExit (code : Z).

(** [action.nargs]: 0 for the help action; a [store] action has
    [nargs=None] and takes one argument. *)
Definition nargs (a : Action) : nat :=
  match action a with
  | store _ _ => 1
  | help => 0
  end.

(** [s.lstrip('-')]. *)
Fixpoint lstrip_dash (s : string) : string :=
  match s with
  | String c s' => if Ascii.eqb c "-" then lstrip_dash s' else s
  | EmptyString => s
  end.

(** [s.replace('-', '_')]. *)
Fixpoint replace_dash (s : string) : string :=
  match s with
  | String c s' => String (if Ascii.eqb c "-" then "_"%char else c) (replace_dash s')
  | EmptyString => EmptyString
  end.

(** [ArgumentParser(...)]: the parser starts with the help action. *)
Definition ArgumentParser : ArgumentParser_t :=
  [ {| option_strings := ["-h"; "--help"]; dest := "help"; action := help |} ].

(** [parser.add_argument(flag, type=..., default=...)] for a long option. *)
Definition add_argument (parser : ArgumentParser_t) (flag : string)
  (type : option (string -> option value)) (default : value)
  : ArgumentParser_t :=
  (parser ++ [ {| option_strings := [flag];
                  dest := replace_dash (lstrip_dash flag);
                  action := store type default |} ])%list.

(** [parser._option_string_actions]: the option strings in the order in
    which they were added, each with its action. *)
Definition option_string_actions (parser : ArgumentParser_t)
  : list (string * Action) :=
  flat_map (fun a => map (fun s => (s, a)) (option_strings a)) parser.

(** [m[key]] when [key in m]. *)
Fixpoint lookup (key : string) (m : list (string * Action)) : option Action :=
  match m with
  | [] => None
  | (k, a) :: m' => if String.eqb k key then Some a else lookup key m'
  end.

(** [setattr(namespace, dest, v)]. *)
Fixpoint setattr (ns : Namespace) (d : string) (v : value) : Namespace :=
  match ns with
  | [] => [(d, v)]
  | (k, x) :: ns' =>
      if String.eqb k d then (k, v) :: ns' else (k, x) :: setattr ns' d v
  end.

(** [namespace.d], when the attribute is there. *)
Fixpoint attribute (ns : Namespace) (d : string) : option value :=
  match ns with
  | [] => None
  | (k, x) :: ns' => if String.eqb k d then Some x else attribute ns' d
  end.

(** The namespace before any token is read: the defaults of the actions. *)
Fixpoint defaults (parser : ArgumentParser_t) (ns : Namespace) : Namespace :=
  match parser with
  | [] => ns
  | a :: parser' =>
      match action a with
      | store _ d =>
          match attribute ns (dest a) with
          | None => defaults parser' (setattr ns (dest a) d)
          | Some _ => defaults parser' ns
          end
      | help => defaults parser' ns
      end
  end.

(** [s.split('=', 1)] when ['=' in s]: the text before the first [=] and
    the text after it; without [=], the text itself and [None]. *)
Fixpoint split_eq (s : string) : string * option string :=
  match s with
  | EmptyString => ("", None)
  | String c s' =>
      if Ascii.eqb c "=" then ("", Some s')
      else let (pre, post) := split_eq s' in (String c pre, post)
  end.

(** [' ' in s]. *)
Fixpoint has_space (s : string) : bool :=
  match s with
  | EmptyString => false
  | String c s' => Ascii.eqb c " " || has_space s'
  end.

(** What [_parse_optional] says of a token: [None] (a plain argument),
    a tuple of an action (or [None] for an option that the parser does
    not have), an option string and an explicit argument, or the error
    of an ambiguous abbreviation, which ends the process. *)
Inductive parsed :=
| positional
| option_tuple (a : option Action) (option_string : string)
    (explicit_arg : option string)
| ambiguous.

(** How [_parse_known_args] marks a token: ['A'], ['O'] with the tuple
    of [_parse_optional], or ['-'] for the first [--]. *)
Inductive pattern :=
| A
| O (a : option Action) (option_string : string)
    (explicit_arg : option string)
| dash.

Section Parser.

(** [parser._negative_number_matcher.match(s) is not None], for the
    pattern ['^-\d+$|^-\d*\.\d+$']. *)
Variable negative_number_matcher : string -> bool.

Variable parser : ArgumentParser_t.

(** [_get_option_tuples]; the caller has checked that the string has at
    least two characters and starts with a dash. *)
Definition get_option_tuples (option_string : string)
  : list (Action * string * option string) :=
  match option_string with
  | String c0 (String c1 tail) =>
      if Ascii.eqb c1 "-" then
        let (option_prefix, explicit_arg) := split_eq option_string in
        flat_map
          (fun entry : string * Action =>
             let (option_string, a) := entry in
             if String.prefix option_prefix option_string
             then [(a, option_string, explicit_arg)] else [])
          (option_string_actions parser)
      else
        let option_prefix := option_string in
        let short_option_prefix := String c0 (String c1 EmptyString) in
        let short_explicit_arg := tail in
        flat_map
          (fun entry : string * Action =>
             let (option_string, a) := entry in
             if String.eqb option_string short_option_prefix
             then [(a, option_string, Some short_explicit_arg)]
             else if String.prefix option_prefix option_string
                  then [(a, option_string, None)] else [])
          (option_string_actions parser)
  | _ => []
  end.

(** The end of [_parse_optional], from the option tuples on. *)
Definition parse_abbreviation (arg_string : string) : parsed :=
  match get_option_tuples arg_string with
  | _ :: _ :: _ => ambiguous
  | [(a, option_string, explicit_arg)] =>
      option_tuple (Some a) option_string explicit_arg
  | [] =>
      if negative_number_matcher arg_string then positional
      else if has_space arg_string then positional
      else option_tuple None arg_string None
  end.

(** [_parse_optional]. *)
Definition parse_optional (arg_string : string) : parsed :=
  match arg_string with
  | EmptyString => positional
  | String c0 rest =>
      if negb (Ascii.eqb c0 "-") then positional
      else
        match lookup arg_string (option_string_actions parser) with
        | Some a => option_tuple (Some a) arg_string None
        | None =>
            if String.eqb rest "" then positional
            else
              match split_eq arg_string with
              | (option_string, Some explicit_arg) =>
                  match lookup option_string (option_string_actions parser) with
                  | Some a => option_tuple (Some a) option_string (Some explicit_arg)
                  | None => parse_abbreviation arg_string
                  end
              | (_, None) => parse_abbreviation arg_string
              end
        end
  end.

(** The first pass of [_parse_known_args]: every token is marked; the
    first [--] is marked ['-'] and the tokens after it ['A'].  [None]
    when a token is an ambiguous abbreviation. *)
Fixpoint classify (arg_strings : list string)
  : option (list (string * pattern)) :=
  match arg_strings with
  | [] => Some []
  | arg_string :: rest =>
      if String.eqb arg_string "--"
      then Some ((arg_string, dash) :: map (fun s => (s, A)) rest)
      else
        match parse_optional arg_string with
        | ambiguous => None
        | positional =>
            option_map (cons (arg_string, A)) (classify rest)
        | option_tuple a option_string explicit_arg =>
            option_map (cons (arg_string, O a option_string explicit_arg))
              (classify rest)
        end
  end.

(** [option_string[1] in '-']. *)
Definition second_is_dash (option_string : string) : bool :=
  match option_string with
  | String _ (String c1 _) => Ascii.eqb c1 "-"
  | _ => false
  end.

(** [option_string[0] + c]. *)
Definition short_option (option_string : string) (c : ascii) : string :=
  match option_string with
  | String c0 _ => String c0 (String c EmptyString)
  | EmptyString => String c EmptyString
  end.

(** An entry of [action_tuples]: an action, its argument strings and the
    option string that named it. *)
Definition action_tuple : Type := Action * list string * string.

(** The loop of [consume_optional] while there is an explicit argument.
    It gives the action tuples found so far and, when the explicit
    argument was used up by options without arguments, the action and
    option string that are left to take their arguments from the
    strings that follow; [None] for an [ArgumentError]. *)
Fixpoint consume_explicit (a : Action) (option_string explicit_arg : string)
  (action_tuples : list action_tuple)
  : option (list action_tuple * option (Action * string)) :=
  let arg_count := nargs a in
  if Nat.eqb arg_count 0 && negb (second_is_dash option_string)
     && negb (String.eqb explicit_arg "")
  then
    match explicit_arg with
    | EmptyString => None
    | String c new_explicit_arg =>
        let action_tuples := (action_tuples ++ [(a, [], option_string)])%list in
        let option_string := short_option option_string c in
        match lookup option_string (option_string_actions parser) with
        | Some a' =>
            match new_explicit_arg with
            | EmptyString => Some (action_tuples, Some (a', option_string))
            | String _ _ =>
                consume_explicit a' option_string new_explicit_arg action_tuples
            end
        | None => None
        end
    end
  else if Nat.eqb arg_count 1
  then Some ((action_tuples ++ [(a, [explicit_arg], option_string)])%list, None)
  else None.

(** [arg_strings.remove('--')], which drops the first [--] if any. *)
Fixpoint remove_dashdash (arg_strings : list string) : list string :=
  match arg_strings with
  | [] => []
  | s :: rest => if String.eqb s "--" then rest else s :: remove_dashdash rest
  end.

(** [_get_value]: the [type=] conversion; [None] for an [ArgumentError]. *)
Definition get_value (a : Action) (arg_string : string) : option value :=
  match action a with
  | store (Some type_func) _ => type_func arg_string
  | _ => Some (VStr arg_string)
  end.

(** [[self._get_value(action, v) for v in arg_strings]]. *)
Fixpoint get_value_list (a : Action) (arg_strings : list string)
  : option (list value) :=
  match arg_strings with
  | [] => Some []
  | s :: rest =>
      match get_value a s with
      | Some v =>
          match get_value_list a rest with
          | Some vs => Some (v :: vs)
          | None => None
          end
      | None => None
      end
  end.

(** [_get_values]: one argument of a [store] action gives a single
    value, anything else a list. *)
Definition get_values (a : Action) (arg_strings : list string) : option value :=
  let arg_strings := remove_dashdash arg_strings in
  match action a, arg_strings with
  | store _ _, [arg_string] => get_value a arg_string
  | _, _ => option_map VList (get_value_list a arg_strings)
  end.

(** The state of [_parse_known_args] between two tokens: the namespace
    and [seen_actions] (an action is known by its option strings). *)
Definition seen_actions : Type := list (list string).

(** [take_action]: the values are computed, then the action is called:
    [store] sets the attribute, [help] prints the help and exits with
    status 0.  An [ArgumentError] ends the process with status 2. *)
Definition take_action (t : action_tuple) (ns : Namespace)
  (seen : seen_actions) : Z + Namespace * seen_actions :=
  let '(a, argument_strings, _) := t in
  let seen := (seen ++ [option_strings a])%list in
  match get_values a argument_strings with
  | None => inl 2%Z
  | Some argument_values =>
      match action a with
      | store _ _ => inr (setattr ns (dest a) argument_values, seen)
      | help => inl 0%Z
      end
  end.

(** [for action, args, option_string in action_tuples: take_action(...)]. *)
Fixpoint take_actions (action_tuples : list action_tuple) (ns : Namespace)
  (seen : seen_actions) : Z + Namespace * seen_actions :=
  match action_tuples with
  | [] => inr (ns, seen)
  | t :: rest =>
      match take_action t ns seen with
      | inl code => inl code
      | inr (ns', seen') => take_actions rest ns' seen'
      end
  end.

(** [l1 == l2] on lists of strings. *)
Fixpoint same_strings (l1 l2 : list string) : bool :=
  match l1, l2 with
  | [], [] => true
  | s1 :: l1', s2 :: l2' => String.eqb s1 s2 && same_strings l1' l2'
  | _, _ => false
  end.

(** [action in seen_actions]. *)
Definition in_seen (a : Action) (seen : seen_actions) : bool :=
  existsb (same_strings (option_strings a)) seen.

(** The end of [_parse_known_args]: the default of an action that was
    not seen is converted when it is a string and the attribute still
    holds it.  [None] for an [ArgumentError]. *)
Fixpoint convert_defaults (actions : list Action) (seen : seen_actions)
  (ns : Namespace) : option Namespace :=
  match actions with
  | [] => Some ns
  | a :: rest =>
      if in_seen a seen then convert_defaults rest seen ns
      else
        match action a, attribute ns (dest a) with
        | store _ (VStr d), Some (VStr d') =>
            if String.eqb d d' then
              match get_value a d with
              | Some v => convert_defaults rest seen (setattr ns (dest a) v)
              | None => None
              end
            else convert_defaults rest seen ns
        | _, _ => convert_defaults rest seen ns
        end
  end.

(** The second pass of [_parse_known_args], then the end of
    [parse_args].  The parser has no positional argument, so a token
    that no option takes goes to [extras]: a plain argument, the [--],
    an option that the parser does not have.  An option of the parser
    is consumed with its explicit argument or with the string that
    follows, which must be marked ['A'].  At the end the defaults are
    converted, and [parse_args] rejects a command line that left
    [extras]. *)
Fixpoint consume (toks : list (string * pattern)) (ns : Namespace)
  (seen : seen_actions) (extras : list string) : result :=
  match toks with
  | [] =>
      match convert_defaults parser seen ns with
      | None => SystemExit 2
      | Some args =>
          match extras with
          | [] => Parsed args
          | _ :: _ => SystemExit 2
          end
      end
  | (s, A) :: rest => consume rest ns seen (extras ++ [s])%list
  | (s, dash) :: rest => consume rest ns seen (extras ++ [s])%list
  | (s, O None _ _) :: rest => consume rest ns seen (extras ++ [s])%list
  | (s, O (Some a) option_string explicit_arg) :: rest =>
      let found :=
        match explicit_arg with
        | Some e => consume_explicit a option_string e []
        | None => Some ([], Some (a, option_string))
        end in
      match found with
      | None => SystemExit 2
      | Some (action_tuples, None) =>
          match take_actions action_tuples ns seen with
          | inl code => SystemExit code
          | inr (ns', seen') => consume rest ns' seen' extras
          end
      | Some (action_tuples, Some (a', option_string')) =>
          if Nat.eqb (nargs a') 0 then
            match take_actions
                    (action_tuples ++ [(a', [], option_string')])%list ns seen
            with
            | inl code => SystemExit code
            | inr (ns', seen') => consume rest ns' seen' extras
            end
          else
            match rest with
            | (arg, A) :: rest' =>
                match take_actions
                        (action_tuples ++ [(a', [arg], option_string')])%list
                        ns seen
                with
                | inl code => SystemExit code
                | inr (ns', seen') => consume rest' ns' seen' extras
                end
            | _ => SystemExit 2
            end
      end
  end.

Definition parse_args (argv : list string) : result :=
  match classify argv with
  | None => SystemExit 2
  | Some toks => consume toks (defaults parser []) [] []
  end.

End Parser.

End argparse.

(** What running the script comes to: [uvicorn.run] is called with a host
    and a port, or the process exits before that.  The application object
    that [create_starlette_app] builds from the MCP server is the other
    argument of [uvicorn.run]; it does not depend on the command line. *)
Inductive run :=
| uvicorn_run (host port : argparse.value)
| exited (code : Z)
| AttributeError_args.

Section Main.

(** The builtin [int] on a [str]: [None] for [ValueError]. *)
Variable int : string -> option Z.

(** Whether the parser's pattern for negative numbers matches a token. *)
Variable negative_number : string -> bool.

Definition type_int (s : string) : option argparse.value :=
  match int s with Some z => Some (argparse.VInt z) | None => None end.

(** The parser of lines 222-224. *)
Definition parser : argparse.ArgumentParser_t :=
  let parser := argparse.ArgumentParser in
  let parser :=
    argparse.add_argument parser "--host" None (argparse.VStr "0.0.0.0") in
  let parser :=
    argparse.add_argument parser "--port" (Some type_int)
      (argparse.VInt 8081) in
  parser.

Definition main (argv : list string) : run :=
  match argparse.parse_args negative_number parser argv with
  | argparse.SystemExit code => exited code
  | argparse.Parsed args =>
      match argparse.attribute args "host", argparse.attribute args "port" with
      | Some host, Some port => uvicorn_run host port
      | _, _ => AttributeError_args
      end
  end.

End Main.

(** ** An in-memory cluster

    A stand-in for the external libraries, used to run the handlers on
    concrete inputs: a cluster that holds pods and events, may be out of
    reach, and a machine that may or may not have a kube-config or
    in-cluster credentials. *)

Module fake.

Record cluster := {
  kubeconfig : bool;
  in_cluster : bool;
  reachable : bool;
  pods : list (string * string);
  events : list models.V1Event
}.

Definition ConfigException (text : string) : exn :=
  mkExn "ConfigException" text.

Definition ApiException (code reason : string) : exn :=
  mkExn "ApiException" ("(" ++ code ++ ")" ++ nl ++ "Reason: " ++ reason ++ nl).

Definition MaxRetryError : exn :=
  mkExn "MaxRetryError" "HTTPConnectionPool(host='localhost', port=80): Max retries exceeded".

(** A running pod [name] of namespace [ns]. *)
Definition pod_object (p : string * string) : models.V1Pod :=
  {| models.metadata :=
       Some {| models.name := Some (snd p);
               models.namespace := Some (fst p);
               models.creation_timestamp :=
                 Some {| models.datetime_str := "2025-01-01 00:00:00+00:00" |} |};
     models.status :=
       Some {| models.phase := Some "Running";
               models.container_statuses :=
                 Some [ {| models.state :=
                             Some {| models.state_str := "{'running': {}}" |} |} ];
               models.pod_ip := Some "10.244.0.5" |};
     models.spec := Some {| models.node_name := Some "kind-control-plane" |} |}.

Definition has_pod (k : cluster) (ns name : string) : bool :=
  existsb (fun p => String.eqb (fst p) ns && String.eqb (snd p) name) (pods k).

Definition with_pods (k : cluster) (ps : list (string * string)) : cluster :=
  {| kubeconfig := kubeconfig k; in_cluster := in_cluster k;
     reachable := reachable k; pods := ps; events := events k |}.

(** An event about the object [name]. *)
Definition event_object (name text : string) : models.V1Event :=
  {| models.involved_object := {| models.ref_name := Some name |};
     models.message := Some text;
     models.reason := Some "Scheduled";
     models.type := Some "Normal";
     models.source := Some {| models.component := Some "default-scheduler" |};
     models.first_timestamp := None;
     models.last_timestamp := None |}.

Definition v1 : CoreV1Api cluster :=
  fun r =>
    match r as r0 return cluster -> outcome (client.response r0) * cluster with
    | client.list_namespaced_pod ns => fun k =>
        if reachable k
        then (Returned
                {| models.items :=
                     map pod_object
                       (filter (fun p => String.eqb (fst p) ns) (pods k)) |}, k)
        else (Raised MaxRetryError, k)
    | client.list_pod_for_all_namespaces => fun k =>
        if reachable k
        then (Returned {| models.items := map pod_object (pods k) |}, k)
        else (Raised MaxRetryError, k)
    | client.read_namespaced_pod_log name ns tail_lines => fun k =>
        if reachable k
        then if has_pod k ns name
             then (Returned ("started " ++ name ++ nl), k)
             else (Raised (ApiException "404" "Not Found"), k)
        else (Raised MaxRetryError, k)
    | client.create_namespaced_pod ns body => fun k =>
        if reachable k
        then match item "metadata" body with
             | Some m =>
                 match item "name" m with
                 | Some (PyStr name) =>
                     if has_pod k ns name
                     then (Raised (ApiException "409" "Conflict"), k)
                     else (Returned tt, with_pods k (pods k ++ [(ns, name)]))
                 | _ => (Raised (ApiException "422" "Unprocessable Entity"), k)
                 end
             | None => (Raised (ApiException "422" "Unprocessable Entity"), k)
             end
        else (Raised MaxRetryError, k)
    | client.create_namespace body => fun k =>
        if reachable k then (Returned tt, k) else (Raised MaxRetryError, k)
    | client.delete_namespaced_pod name ns => fun k =>
        if reachable k
        then if has_pod k ns name
             then (Returned tt,
                   with_pods k
                     (filter
                        (fun p => negb (String.eqb (fst p) ns
                                        && String.eqb (snd p) name))
                        (pods k)))
             else (Raised (ApiException "404" "Not Found"), k)
        else (Raised MaxRetryError, k)
    | client.delete_namespace name => fun k =>
        if reachable k then (Returned tt, k) else (Raised MaxRetryError, k)
    | client.list_namespaced_event ns => fun k =>
        if reachable k
        then (Returned {| models.event_items := events k |}, k)
        else (Raised MaxRetryError, k)
    end.

Definition kube : kubernetes cluster :=
  {| load_kube_config := fun context k =>
       if kubeconfig k then (Returned tt, k)
       else (Raised (ConfigException "Invalid kube-config file. No configuration found."), k);
     load_incluster_config := fun k =>
       if in_cluster k then (Returned tt, k)
       else (Raised (ConfigException "Service host/port is not set."), k);
     new_CoreV1Api := fun k => (Returned v1, k) |}.

(** A reachable, empty cluster seen from a machine with a kube-config. *)
Definition empty : cluster :=
  {| kubeconfig := true; in_cluster := false; reachable := true;
     pods := []; events := [] |}.

(** A machine with no configuration at all. *)
Definition unconfigured : cluster :=
  {| kubeconfig := false; in_cluster := false; reachable := false;
     pods := []; events := [] |}.

(** A cluster with two events about [demo] and one about [other]. *)
Definition busy : cluster :=
  {| kubeconfig := true; in_cluster := false; reachable := true;
     pods := [("default", "demo")];
     events := [event_object "demo" "Successfully assigned default/demo";
                event_object "other" "Pulling image";
                event_object "demo" "Started container demo"] |}.

(** The world when the module starts: nothing logged, nothing called. *)
Definition start (k : cluster) : world cluster := mkWorld [] [] k.

Definition is_digit (c : ascii) : bool :=
  (48 <=? nat_of_ascii c)%nat && (nat_of_ascii c <=? 57)%nat.

(** A stand-in for [int], for the runs below: it reads the decimal
    texts made of ASCII digits with an optional sign, as [int] does, and
    rejects every other text ([int] accepts some of those: blanks
    around the text, underscores between digits, other decimal
    digits). *)
Fixpoint digits (s : string) (acc : Z) : option Z :=
  match s with
  | EmptyString => Some acc
  | String c s' =>
      if is_digit c
      then digits s' (10 * acc + Z.of_nat (nat_of_ascii c - 48))%Z
      else None
  end.

Definition int (s : string) : option Z :=
  match s with
  | EmptyString => None
  | String c s' =>
      if Ascii.eqb c "-" then
        match s' with
        | EmptyString => None
        | _ => option_map Z.opp (digits s' 0)
        end
      else if Ascii.eqb c "+" then
        match s' with
        | EmptyString => None
        | _ => digits s' 0
        end
      else digits s 0
  end.

Fixpoint all_digits (s : string) : bool :=
  match s with
  | EmptyString => true
  | String c s' => is_digit c && all_digits s'
  end.

(** Matches [\d*\.\d+] to the end of the text. *)
Fixpoint fraction (s : string) : bool :=
  match s with
  | EmptyString => false
  | String c s' =>
      if Ascii.eqb c "." then negb (String.eqb s' "") && all_digits s'
      else is_digit c && fraction s'
  end.

(** The text without its last character when that is a line feed: [$]
    also matches before a line feed that ends the text. *)
Fixpoint chomp (s : string) : string :=
  match s with
  | EmptyString => EmptyString
  | String c s' =>
      match s' with
      | EmptyString => if Ascii.eqb c "010" then EmptyString else s
      | String _ _ => String c (chomp s')
      end
  end.

(** A stand-in for the parser's negative number pattern
    [^-\d+$|^-\d*\.\d+$], for the runs below: it is that pattern with
    the ASCII digits for [\d], which in Python also matches the other
    decimal digits. *)
Definition negative_number (s : string) : bool :=
  match chomp s with
  | String c s' =>
      Ascii.eqb c "-"
      && ((negb (String.eqb s' "") && all_digits s') || fraction s')
  | EmptyString => false
  end.

End fake.

(** * Properties *)

(** ** Strings and lists *)

Lemma prefix_append (p s : string) : String.prefix p (p ++ s) = true.
Proof.
  induction p as [|c p IH]; simpl.
  - destruct s; reflexivity.
  - destruct (ascii_dec c c) as [_|N]; [exact IH | now elim N].
Qed.

Lemma startswith_append (p s : string) : startswith (p ++ s) p = true.
Proof. apply prefix_append. Qed.

Lemma eq_str_true (a : option string) (b : string) :
  eq_str a b = true <-> a = Some b.
Proof.
  destruct a as [s|]; simpl.
  - rewrite String.eqb_eq. split; intro H; [subst; reflexivity | now inversion H].
  - split; discriminate.
Qed.

(** ** The monad *)

Create HintDb py discriminated.

#[global] Hint Unfold ret raise bind try_except log external call : py.

Ltac py_unfold := autounfold with py in *; simpl in *.

Section MonadFacts.

Context {K : Type}.

(** A [try] whose handler logs and returns never raises. *)
Lemma try_except_total (body : Py K string) (text : string)
  (answer : exn -> string) w :
  exists s,
    fst (try_except body
           (fun e => log ERROR (text ++ str e) ;;; ret (answer e)) w)
    = Returned s.
Proof.
  unfold try_except. destruct (body w) as [[a|e] w'].
  - exists a. reflexivity.
  - exists (answer e). reflexivity.
Qed.

Lemma call_runs (v1 : CoreV1Api K) r w :
  call v1 r w
  = (fst (v1 r (outside w)),
     mkWorld (logged w) (calls w ++ [v1_call r]) (snd (v1 r (outside w)))).
Proof. py_unfold. destruct (v1 r (outside w)); reflexivity. Qed.

(** A loop whose body returns for every element returns the blocks in
    order, after what was collected before. *)
Lemma for_append_returns {A} (body : A -> Py K string) xs bs :
  Forall2 (fun x b => forall w, body x w = (Returned b, w)) xs bs ->
  forall acc w, for_append body xs acc w = (Returned (acc ++ bs)%list, w).
Proof.
  induction 1 as [|x b xs bs Hx _ IH]; intros acc w; simpl.
  - rewrite app_nil_r. reflexivity.
  - unfold bind. rewrite Hx. rewrite IH, <- app_assoc. reflexivity.
Qed.

(** The loop makes no call and writes no log record: it leaves the world
    as it is, whether it returns or raises. *)
Lemma for_append_world {A} (body : A -> Py K string) xs :
  (forall x w, snd (body x w) = w) ->
  forall acc w, snd (for_append body xs acc w) = w.
Proof.
  intros Hb. induction xs as [|x xs IH]; intros acc w; simpl.
  - reflexivity.
  - unfold bind. specialize (Hb x w).
    destruct (body x w) as [[b|e] w']; simpl in *; subst w'.
    + apply IH.
    + reflexivity.
Qed.

End MonadFacts.

(** ** The handlers *)

Create HintDb handlers discriminated.

#[global] Hint Unfold get_pods get_pod_logs create_pod create_namespace
  delete_pod delete_namespace get_pod_events list_pods : handlers.

Section HandlerFacts.

Context {K : Type}.
Variable v1 : CoreV1Api K.

Lemma pod_details_world pod (w : world K) : snd (pod_details pod w) = w.
Proof.
  destruct pod as [[m|] [[ph [[|c cs]|] ip]|] [sp|]];
    unfold pod_details; py_unfold; reflexivity.
Qed.

Lemma event_details_world ev (w : world K) : snd (event_details ev w) = w.
Proof.
  unfold event_details, getattr. destruct (models.source ev); reflexivity.
Qed.

(** An event that has a source is formatted; the block is the f-string
    with the attributes printed. *)
Lemma event_details_returns ev src :
  models.source ev = Some src ->
  exists b, forall w' : world K, event_details ev w' = (Returned b, w').
Proof.
  intro H. unfold event_details. rewrite H. simpl.
  eexists. intro w'. unfold bind, ret. reflexivity.
Qed.

(** Events that all have a source are all formatted. *)
Lemma event_blocks_exist (evs : list models.V1Event) :
  (forall ev, In ev evs -> models.source ev <> None) ->
  exists blocks,
    Forall2
      (fun ev b => forall w : world K, event_details ev w = (Returned b, w))
      evs blocks.
Proof.
  induction evs as [|ev evs IH]; intro H.
  - exists []. constructor.
  - destruct IH as [bs Hbs].
    { intros ev' Hin. apply H. right. exact Hin. }
    destruct (models.source ev) as [src|] eqn:Es.
    + destruct (event_details_returns ev src Es) as [b Hb].
      exists (b :: bs). constructor; assumption.
    + exfalso. apply (H ev); [left; reflexivity | exact Es].
Qed.

(** The block of an event that has a source: the f-string of lines
    177-186 with the attributes of the event. *)
Lemma event_details_text ev src :
  models.source ev = Some src ->
  forall w : world K,
    event_details ev w
    = (Returned
         (nl ++ nl ++ nl
          ++ "Event: " ++ str (models.message ev) ++ nl
          ++ "Reason: " ++ str (models.reason ev) ++ nl
          ++ "Type: " ++ str (models.type ev) ++ nl
          ++ "Source: " ++ str (models.component src) ++ nl
          ++ "First Seen: " ++ str (models.first_timestamp ev) ++ nl
          ++ "Last Seen: " ++ str (models.last_timestamp ev) ++ nl), w).
Proof.
  intros H w. unfold event_details. rewrite H. reflexivity.
Qed.

(** Events that all have a source are all formatted, each as its
    f-string. *)
Lemma event_blocks_text (evs : list models.V1Event) :
  (forall ev, In ev evs -> models.source ev <> None) ->
  exists blocks,
    Forall2
      (fun ev b =>
         exists src,
           models.source ev = Some src
           /\ b = nl ++ nl ++ nl
                  ++ "Event: " ++ str (models.message ev) ++ nl
                  ++ "Reason: " ++ str (models.reason ev) ++ nl
                  ++ "Type: " ++ str (models.type ev) ++ nl
                  ++ "Source: " ++ str (models.component src) ++ nl
                  ++ "First Seen: " ++ str (models.first_timestamp ev) ++ nl
                  ++ "Last Seen: " ++ str (models.last_timestamp ev) ++ nl)
      evs blocks
    /\ Forall2
         (fun ev b => forall w : world K, event_details ev w = (Returned b, w))
         evs blocks.
Proof.
  induction evs as [|ev evs IH]; intro H.
  - exists []. split; constructor.
  - destruct IH as [bs [H1 H2]].
    { intros ev' Hin. apply H. right. exact Hin. }
    destruct (models.source ev) as [src|] eqn:Es.
    + eexists (_ :: bs). split; constructor; try assumption.
      * exists src. split; [exact Es | reflexivity].
      * intro w. apply (event_details_text ev src Es).
    + exfalso. apply (H ev); [left; reflexivity | exact Es].
Qed.

(** X3.  No handler raises: whatever the cluster client does and
    whatever is wrong with what it returns, the caller gets a string. *)
Lemma invoke_never_raises i w :
  exists s, fst (invoke v1 i w) = Returned s.
Proof.
  destruct i; simpl; autounfold with handlers; cbv zeta;
    apply try_except_total.
Qed.

(** Each tool call sends exactly one request, the one [external_call]
    names. *)
Lemma invoke_calls_once i w :
  calls (snd (invoke v1 i w)) = (calls w ++ [v1_call (external_call i)])%list.
Proof.
  destruct i; simpl; autounfold with handlers; cbv zeta.
  - (* get_pods *)
    unfold try_except, bind.
    destruct (bound None namespace) as [ns|]; [destruct (truthy ns)|];
      rewrite call_runs;
      match goal with
      | |- context [ v1 ?r (outside w) ] =>
          destruct (v1 r (outside w)) as [[pods|e] k]; simpl; try reflexivity
      end;
      (destruct (truthy (models.items pods)); simpl; [|reflexivity];
       match goal with
       | |- context [ for_append ?b ?xs ?acc ?w0 ] =>
           pose proof (for_append_world b xs pod_details_world acc w0) as Hw;
           destruct (for_append b xs acc w0) as [[l|e] w1]; simpl in *;
           subst w1; reflexivity
       end).
  - unfold try_except, bind. rewrite call_runs.
    destruct (v1 _ (outside w)) as [[a|e] k]; reflexivity.
  - unfold try_except, bind. rewrite call_runs.
    destruct (v1 _ (outside w)) as [[a|e] k]; reflexivity.
  - unfold try_except, bind. rewrite call_runs.
    destruct (v1 _ (outside w)) as [[a|e] k]; reflexivity.
  - unfold try_except, bind. rewrite call_runs.
    destruct (v1 _ (outside w)) as [[a|e] k]; reflexivity.
  - unfold try_except, bind. rewrite call_runs.
    destruct (v1 _ (outside w)) as [[a|e] k]; reflexivity.
  - (* get_pod_events *)
    unfold try_except, bind. rewrite call_runs.
    destruct (v1 _ (outside w)) as [[events|e] k]; simpl; try reflexivity.
    destruct (truthy (pod_events_of pod_name events)); simpl;
      [|reflexivity].
    match goal with
    | |- context [ for_append ?b ?xs ?acc ?w0 ] =>
        pose proof (for_append_world b xs event_details_world acc w0) as Hw;
        destruct (for_append b xs acc w0) as [[l|e] w1]; simpl in *;
        subst w1; reflexivity
    end.
Qed.

End HandlerFacts.

(** ** The claims about the handlers *)

(** C1.  Whenever the request that a handler sends to the cluster client
    raises an exception [e], the handler does not raise: it returns the
    string made of its documented error prefix, a blank and [str(e)],
    which begins with that prefix.  This holds for each of the seven
    handlers. *)
Theorem handlers_return_error_strings {K} (v1 : CoreV1Api K)
  (i : invocation) (w : world K) (e : exn) :
  fst (v1 (external_call i) (outside w)) = Raised e ->
  exists s,
    fst (invoke v1 i w) = Returned s
    /\ s = error_prefix i ++ " " ++ str e
    /\ startswith s (error_prefix i) = true.
Proof.
  intro H.
  exists (error_prefix i ++ " " ++ str e).
  split; [|split; [reflexivity | apply startswith_append]].
  destruct i; unfold invoke, external_call in *;
    autounfold with handlers; cbv zeta; unfold try_except, bind.
  - destruct (bound None namespace) as [ns|]; [destruct (truthy ns)|];
      rewrite call_runs, H; reflexivity.
  - rewrite call_runs, H; reflexivity.
  - rewrite call_runs, H; reflexivity.
  - rewrite call_runs, H; reflexivity.
  - rewrite call_runs, H; reflexivity.
  - rewrite call_runs, H; reflexivity.
  - rewrite call_runs, H; reflexivity.
Qed.

(** The scenario of a missing pod: the log request answers 404 and
    [get_pod_logs] returns a string that starts with its prefix. *)
Lemma handlers_return_error_strings_witness :
  fst (fake.v1
         (external_call
            (tool_get_pod_logs "missing-pod" (Given "default") (Given 50%Z)))
         (outside (fake.start fake.busy)))
  = Raised (fake.ApiException "404" "Not Found")
  /\ exists s,
       fst (invoke fake.v1
              (tool_get_pod_logs "missing-pod" (Given "default") (Given 50%Z))
              (fake.start fake.busy)) = Returned s
       /\ s = "Error retrieving pod logs:" ++ " "
              ++ str (fake.ApiException "404" "Not Found")
       /\ startswith s "Error retrieving pod logs:" = true.
Proof.
  split.
  - reflexivity.
  - apply (handlers_return_error_strings fake.v1
             (tool_get_pod_logs "missing-pod" (Given "default") (Given 50%Z))
             (fake.start fake.busy) (fake.ApiException "404" "Not Found")).
    reflexivity.
Defined.

(** C2.  When the list call of [get_pods] returns and the list of pods
    is empty, [get_pods] returns exactly ["No pods found."]. *)
Theorem get_pods_empty {K} (v1 : CoreV1Api K) (namespace : arg (option string))
  (w w' : world K) (pods : models.V1PodList) :
  list_pods v1 (bound None namespace) w = (Returned pods, w') ->
  models.items pods = [] ->
  fst (get_pods v1 namespace w) = Returned "No pods found.".
Proof.
  intros Hcall Hitems. unfold get_pods; cbv zeta.
  unfold try_except, bind. rewrite Hcall, Hitems. reflexivity.
Qed.

Lemma get_pods_empty_witness :
  list_pods fake.v1 (bound None (Given (Some "default")))
    (fake.start fake.empty)
  = (Returned {| models.items := [] |},
     mkWorld [] [v1_call (client.list_namespaced_pod "default")] fake.empty)
  /\ models.items {| models.items := [] |} = []
  /\ fst (get_pods fake.v1 (Given (Some "default")) (fake.start fake.empty))
     = Returned "No pods found.".
Proof.
  split; [reflexivity | split; [reflexivity|]].
  apply (get_pods_empty fake.v1 (Given (Some "default"))
           (fake.start fake.empty)
           (mkWorld [] [v1_call (client.list_namespaced_pod "default")]
              fake.empty)
           {| models.items := [] |}); reflexivity.
Defined.

(** C3.  When the event list call of [get_pod_events] returns and no
    event of the list is about [pod_name], [get_pod_events] returns
    exactly ["No events found for this pod."]. *)
Theorem get_pod_events_empty {K} (v1 : CoreV1Api K) (pod_name : string)
  (namespace : arg string) (w : world K) (events : models.V1EventList)
  (k : K) :
  v1 (client.list_namespaced_event (bound "default" namespace)) (outside w)
  = (Returned events, k) ->
  pod_events_of pod_name events = [] ->
  fst (get_pod_events v1 pod_name namespace w)
  = Returned "No events found for this pod.".
Proof.
  intros Hcall Hnone. unfold get_pod_events; cbv zeta.
  unfold try_except, bind. rewrite call_runs, Hcall. simpl.
  rewrite Hnone. reflexivity.
Qed.

Lemma get_pod_events_empty_witness :
  fake.v1 (client.list_namespaced_event (bound "default" Omitted))
    (outside (fake.start fake.busy))
  = (Returned {| models.event_items := fake.events fake.busy |}, fake.busy)
  /\ pod_events_of "nobody" {| models.event_items := fake.events fake.busy |}
     = []
  /\ fst (get_pod_events fake.v1 "nobody" Omitted (fake.start fake.busy))
     = Returned "No events found for this pod.".
Proof.
  split; [reflexivity | split; [reflexivity|]].
  apply (get_pod_events_empty fake.v1 "nobody" Omitted (fake.start fake.busy)
           {| models.event_items := fake.events fake.busy |} fake.busy);
    reflexivity.
Defined.

(** C4 (as amended).  [get_pod_events] sends one request, the list of
    the events of the namespace, and selects exactly the events whose
    involved object is named [pod_name], in the order of the list: an
    event is selected if and only if it is in the list and carries that
    name.  When every selected event has a source, the result is one
    block per selected event, in that order, joined by the separator
    line; the block of an event is the f-string of lines 177-186 with
    its message, reason, type, source component and first and last
    timestamps.  With no selected event the result is the sentinel of
    C3. *)
Theorem get_pod_events_selects {K} (v1 : CoreV1Api K) (pod_name : string)
  (namespace : arg string) (w : world K) (events : models.V1EventList)
  (k : K) :
  let ns := match namespace with Given n => n | Omitted => "default" end in
  let selected :=
    filter
      (fun ev =>
         match models.ref_name (models.involved_object ev) with
         | Some n => String.eqb n pod_name
         | None => false
         end)
      (models.event_items events) in
  v1 (client.list_namespaced_event ns) (outside w) = (Returned events, k) ->
  (forall ev, In ev selected -> models.source ev <> None) ->
  calls (snd (get_pod_events v1 pod_name namespace w))
  = (calls w ++ [v1_call (client.list_namespaced_event ns)])%list
  /\ (forall ev,
        In ev selected <->
        In ev (models.event_items events)
        /\ models.ref_name (models.involved_object ev) = Some pod_name)
  /\ exists blocks,
       Forall2
         (fun ev b =>
            exists src,
              models.source ev = Some src
              /\ b = nl ++ nl ++ nl
                     ++ "Event: " ++ str (models.message ev) ++ nl
                     ++ "Reason: " ++ str (models.reason ev) ++ nl
                     ++ "Type: " ++ str (models.type ev) ++ nl
                     ++ "Source: " ++ str (models.component src) ++ nl
                     ++ "First Seen: " ++ str (models.first_timestamp ev) ++ nl
                     ++ "Last Seen: " ++ str (models.last_timestamp ev) ++ nl)
         selected blocks
       /\ fst (get_pod_events v1 pod_name namespace w)
          = Returned
              match selected with
              | [] => "No events found for this pod."
              | _ :: _ => join (nl ++ "---" ++ nl) blocks
              end.
Proof.
  intros ns selected Hcall Hsrc.
  assert (Hsel : pod_events_of pod_name events = selected) by reflexivity.
  split; [|split].
  - pose proof
      (invoke_calls_once v1 (tool_get_pod_events pod_name namespace) w) as Ht.
    destruct namespace; exact Ht.
  - intro ev. unfold selected.
    rewrite filter_In.
    change (match models.ref_name (models.involved_object ev) with
            | Some n => String.eqb n pod_name
            | None => false
            end)
      with (eq_str (models.ref_name (models.involved_object ev)) pod_name).
    rewrite eq_str_true. reflexivity.
  - destruct (event_blocks_text (K := K) selected Hsrc)
      as [blocks [Htext Hrun]].
    exists blocks. split; [exact Htext|].
    unfold get_pod_events; cbv zeta. unfold try_except, bind.
    rewrite call_runs.
    replace (bound "default" namespace) with ns
      by (destruct namespace; reflexivity).
    rewrite Hcall. cbn [fst snd]. rewrite Hsel.
    destruct selected as [|ev evs] eqn:Es.
    + reflexivity.
    + cbn [truthy Truthy_list negb].
      rewrite (for_append_returns event_details (ev :: evs) blocks Hrun).
      reflexivity.
Qed.

Lemma get_pod_events_selects_witness :
  let events := {| models.event_items := fake.events fake.busy |} in
  let w := fake.start fake.busy in
  fake.v1 (client.list_namespaced_event "default") (outside w)
  = (Returned events, fake.busy)
  /\ (forall ev,
        In ev [fake.event_object "demo" "Successfully assigned default/demo";
               fake.event_object "demo" "Started container demo"] ->
        models.source ev <> None)
  /\ calls (snd (get_pod_events fake.v1 "demo" Omitted w))
     = [v1_call (client.list_namespaced_event "default")]
  /\ exists blocks,
       Forall2
         (fun ev b =>
            exists src,
              models.source ev = Some src
              /\ b = nl ++ nl ++ nl
                     ++ "Event: " ++ str (models.message ev) ++ nl
                     ++ "Reason: " ++ str (models.reason ev) ++ nl
                     ++ "Type: " ++ str (models.type ev) ++ nl
                     ++ "Source: " ++ str (models.component src) ++ nl
                     ++ "First Seen: " ++ str (models.first_timestamp ev) ++ nl
                     ++ "Last Seen: " ++ str (models.last_timestamp ev) ++ nl)
         [fake.event_object "demo" "Successfully assigned default/demo";
          fake.event_object "demo" "Started container demo"]
         blocks
       /\ fst (get_pod_events fake.v1 "demo" Omitted w)
          = Returned (join (nl ++ "---" ++ nl) blocks).
Proof.
  intros events w.
  assert (Hsrc : forall ev,
             In ev [fake.event_object "demo"
                      "Successfully assigned default/demo";
                    fake.event_object "demo" "Started container demo"] ->
             models.source ev <> None).
  { intros ev [<-|[<-|[]]]; discriminate. }
  split; [reflexivity | split; [exact Hsrc|]].
  destruct (get_pod_events_selects fake.v1 "demo" Omitted w events fake.busy
              eq_refl Hsrc) as [Hcalls [_ Hblocks]].
  split; [exact Hcalls | exact Hblocks].
Defined.

(** One event about [demo], without a source: the result is the error
    string of the failed attribute access, which no block for the event
    is part of.  So the blocks are not returned for every event whose
    involved object is named [pod_name]. *)
Lemma get_pod_events_no_block_without_source :
  let orphan :=
    {| models.involved_object := {| models.ref_name := Some "demo" |};
       models.message := Some "Pulling image";
       models.reason := Some "Pulling";
       models.type := Some "Normal";
       models.source := None;
       models.first_timestamp := None;
       models.last_timestamp := None |} in
  let k :=
    {| fake.kubeconfig := true; fake.in_cluster := false;
       fake.reachable := true; fake.pods := [];
       fake.events := [orphan] |} in
  let result := fst (get_pod_events fake.v1 "demo" Omitted (fake.start k)) in
  pod_events_of "demo" {| models.event_items := [orphan] |} = [orphan]
  /\ result
     = Returned
         "Error retrieving pod events: 'NoneType' object has no attribute 'component'"
  /\ ~ (exists blocks,
          length blocks = 1%nat
          /\ Forall
               (fun b => startswith b (nl ++ nl ++ nl ++ "Event: ") = true)
               blocks
          /\ result = Returned (join (nl ++ "---" ++ nl) blocks)).
Proof.
  intros orphan k result.
  split; [reflexivity | split; [reflexivity|]].
  intros [blocks [Hlen [Hhead Hres]]].
  destruct blocks as [|b [|b' l]]; try discriminate Hlen.
  inversion Hhead as [|b0 l0 Hb _]; subst.
  simpl in Hres. inversion Hres as [Hb'].
  rewrite <- Hb' in Hb. discriminate Hb.
Qed.

(** C5.  When the create request returns, [create_pod] returns
    ["Pod <pod_name> created in namespace <namespace>."], and when the
    delete request returns, [delete_pod] returns
    ["Pod <pod_name> deleted from namespace <namespace>."], with the
    pod name and the namespace of the call; so
    [create_pod("demo", "default", "nginx")] returns
    ["Pod demo created in namespace default."] and
    [delete_pod("demo", "default")] returns
    ["Pod demo deleted from namespace default."]. *)
Theorem pod_confirmations {K} (v1 : CoreV1Api K) :
  (forall pod_name namespace image (w : world K) k,
      v1 (client.create_namespaced_pod namespace
            (pod_manifest pod_name namespace image)) (outside w)
      = (Returned tt, k) ->
      fst (create_pod v1 pod_name (Given namespace) (Given image) w)
      = Returned
          ("Pod " ++ pod_name ++ " created in namespace " ++ namespace ++ "."))
  /\ (forall pod_name namespace (w : world K) k,
        v1 (client.delete_namespaced_pod pod_name namespace) (outside w)
        = (Returned tt, k) ->
        fst (delete_pod v1 pod_name (Given namespace) w)
        = Returned
            ("Pod " ++ pod_name ++ " deleted from namespace " ++ namespace
             ++ "."))
  /\ (forall (w : world K) k,
        v1 (client.create_namespaced_pod "default"
              (pod_manifest "demo" "default" "nginx")) (outside w)
        = (Returned tt, k) ->
        fst (create_pod v1 "demo" (Given "default") (Given "nginx") w)
        = Returned "Pod demo created in namespace default.")
  /\ (forall (w : world K) k,
        v1 (client.delete_namespaced_pod "demo" "default") (outside w)
        = (Returned tt, k) ->
        fst (delete_pod v1 "demo" (Given "default") w)
        = Returned "Pod demo deleted from namespace default.").
Proof.
  assert (Hcreate : forall pod_name namespace image (w : world K) k,
             v1 (client.create_namespaced_pod namespace
                   (pod_manifest pod_name namespace image)) (outside w)
             = (Returned tt, k) ->
             fst (create_pod v1 pod_name (Given namespace) (Given image) w)
             = Returned
                 ("Pod " ++ pod_name ++ " created in namespace " ++ namespace
                  ++ ".")).
  { intros pod_name namespace image w k H.
    unfold create_pod; cbv zeta. unfold try_except, bind.
    rewrite call_runs. unfold bound. rewrite H. reflexivity. }
  assert (Hdelete : forall pod_name namespace (w : world K) k,
             v1 (client.delete_namespaced_pod pod_name namespace) (outside w)
             = (Returned tt, k) ->
             fst (delete_pod v1 pod_name (Given namespace) w)
             = Returned
                 ("Pod " ++ pod_name ++ " deleted from namespace " ++ namespace
                  ++ ".")).
  { intros pod_name namespace w k H.
    unfold delete_pod; cbv zeta. unfold try_except, bind.
    rewrite call_runs. unfold bound. rewrite H. reflexivity. }
  split; [exact Hcreate | split; [exact Hdelete | split]].
  - intros w k H. exact (Hcreate "demo" "default" "nginx" w k H).
  - intros w k H. exact (Hdelete "demo" "default" w k H).
Qed.

(** The scenario on a reachable cluster: the pod is created, then a
    subsequent delete finds it and removes it. *)
Lemma pod_confirmations_witness :
  let w0 := fake.start fake.empty in
  let w1 := snd (create_pod fake.v1 "demo" (Given "default") (Given "nginx") w0) in
  fake.v1 (client.create_namespaced_pod "default"
             (pod_manifest "demo" "default" "nginx")) (outside w0)
  = (Returned tt, fake.with_pods fake.empty [("default", "demo")])
  /\ fst (create_pod fake.v1 "demo" (Given "default") (Given "nginx") w0)
     = Returned "Pod demo created in namespace default."
  /\ fake.v1 (client.delete_namespaced_pod "demo" "default") (outside w1)
     = (Returned tt, fake.with_pods fake.empty [])
  /\ fst (delete_pod fake.v1 "demo" (Given "default") w1)
     = Returned "Pod demo deleted from namespace default.".
Proof.
  intros w0 w1.
  destruct (pod_confirmations fake.v1) as [_ [_ [Hcreate Hdelete]]].
  split; [reflexivity | split; [|split; [reflexivity|]]].
  - apply (Hcreate w0 (fake.with_pods fake.empty [("default", "demo")])).
    reflexivity.
  - apply (Hdelete w1 (fake.with_pods fake.empty [])). reflexivity.
Defined.


(** C6.  [create_pod] sends one create request, for the namespace of the
    call, whose body has exactly one container; the image of that
    container is the [image] argument, or ["nginx"] when the argument is
    left out, and the name and the namespace in the metadata are the
    [pod_name] and [namespace] arguments (["default"] when the namespace
    is left out). *)
Theorem create_pod_manifest {K} (v1 : CoreV1Api K) (pod_name : string)
  (namespace image : arg string) (w : world K) :
  let ns := match namespace with Given n => n | Omitted => "default" end in
  let img := match image with Given i => i | Omitted => "nginx" end in
  exists body,
    calls (snd (create_pod v1 pod_name namespace image w))
    = (calls w ++ [v1_call (client.create_namespaced_pod ns body)])%list
    /\ (exists container,
          path ["spec"; "containers"] body = Some (PyList [container])
          /\ item "image" container = Some (PyStr img))
    /\ path ["metadata"; "name"] body = Some (PyStr pod_name)
    /\ path ["metadata"; "namespace"] body = Some (PyStr ns).
Proof.
  intros ns img. exists (pod_manifest pod_name ns img).
  split; [|split; [|split]].
  - pose proof
      (invoke_calls_once v1 (tool_create_pod pod_name namespace image) w) as Ht.
    destruct namespace, image; exact Ht.
  - exists (PyDict [("name", PyStr pod_name); ("image", PyStr img)]).
    split; reflexivity.
  - reflexivity.
  - reflexivity.
Qed.

(** C7.  [get_pod_logs] sends one request, the log read with the pod
    name, the namespace and the tail line count of the call, where a
    namespace left out is ["default"] and a line count left out is 50;
    when that request returns a text, [get_pod_logs] returns the same
    text. *)
Theorem get_pod_logs_passes_arguments {K} (v1 : CoreV1Api K)
  (pod_name : string) (namespace : arg string) (tail_lines : arg Z)
  (w : world K) :
  let ns := match namespace with Given n => n | Omitted => "default" end in
  let n := match tail_lines with Given n => n | Omitted => 50%Z end in
  calls (snd (get_pod_logs v1 pod_name namespace tail_lines w))
  = (calls w ++ [v1_call (client.read_namespaced_pod_log pod_name ns n)])%list
  /\ (forall logs k,
        v1 (client.read_namespaced_pod_log pod_name ns n) (outside w)
        = (Returned logs, k) ->
        fst (get_pod_logs v1 pod_name namespace tail_lines w) = Returned logs).
Proof.
  intros ns n. split.
  - pose proof
      (invoke_calls_once v1
         (tool_get_pod_logs pod_name namespace tail_lines) w) as Ht.
    destruct namespace, tail_lines; exact Ht.
  - intros logs k H.
    unfold get_pod_logs; cbv zeta. unfold try_except, bind.
    rewrite call_runs.
    replace (bound "default" namespace) with ns
      by (destruct namespace; reflexivity).
    replace (bound 50%Z tail_lines) with n
      by (destruct tail_lines; reflexivity).
    rewrite H. reflexivity.
Qed.

Lemma get_pod_logs_passes_arguments_witness :
  let w := fake.start fake.busy in
  calls (snd (get_pod_logs fake.v1 "demo" Omitted Omitted w))
  = [v1_call (client.read_namespaced_pod_log "demo" "default" 50)]
  /\ fake.v1 (client.read_namespaced_pod_log "demo" "default" 50) (outside w)
     = (Returned ("started demo" ++ nl), fake.busy)
  /\ fst (get_pod_logs fake.v1 "demo" Omitted Omitted w)
     = Returned ("started demo" ++ nl).
Proof.
  intro w.
  destruct (get_pod_logs_passes_arguments fake.v1 "demo" Omitted Omitted w)
    as [Htrace Hlogs].
  split; [exact Htrace | split; [reflexivity|]].
  apply (Hlogs ("started demo" ++ nl) fake.busy). reflexivity.
Defined.

(** C10.  [get_pods] chooses between the two list requests by the
    truthiness of [namespace]: when the argument is left out, is [None],
    is the empty string, or is falsy in any way, the one request sent is
    the list over all namespaces; when it is a non-empty string, the one
    request sent is the list of that namespace. *)
Theorem get_pods_namespace_truthiness {K} (v1 : CoreV1Api K) (w : world K) :
  (forall namespace,
      truthy (bound None namespace) = false ->
      calls (snd (get_pods v1 namespace w))
      = (calls w ++ [v1_call client.list_pod_for_all_namespaces])%list)
  /\ (forall ns,
        ns <> "" ->
        calls (snd (get_pods v1 (Given (Some ns)) w))
        = (calls w ++ [v1_call (client.list_namespaced_pod ns)])%list)
  /\ (forall namespace ns,
        calls (snd (get_pods v1 namespace w))
        = (calls w ++ [v1_call (client.list_namespaced_pod ns)])%list ->
        namespace = Given (Some ns) /\ ns <> "")
  /\ calls (snd (get_pods v1 Omitted w))
     = (calls w ++ [v1_call client.list_pod_for_all_namespaces])%list
  /\ calls (snd (get_pods v1 (Given None) w))
     = (calls w ++ [v1_call client.list_pod_for_all_namespaces])%list
  /\ calls (snd (get_pods v1 (Given (Some "")) w))
     = (calls w ++ [v1_call client.list_pod_for_all_namespaces])%list.
Proof.
  assert (Hfalsy : forall namespace,
             truthy (bound None namespace) = false ->
             calls (snd (get_pods v1 namespace w))
             = (calls w ++ [v1_call client.list_pod_for_all_namespaces])%list).
  { intros namespace H.
    pose proof (invoke_calls_once v1 (tool_get_pods namespace) w) as Ht.
    cbn [invoke external_call] in Ht.
    destruct (bound None namespace) as [ns|]; [|exact Ht].
    cbn [truthy Truthy_option] in H. rewrite H in Ht. exact Ht. }
  assert (Hnamed : forall ns,
             ns <> "" ->
             calls (snd (get_pods v1 (Given (Some ns)) w))
             = (calls w ++ [v1_call (client.list_namespaced_pod ns)])%list).
  { intros ns Hns.
    pose proof (invoke_calls_once v1 (tool_get_pods (Given (Some ns))) w) as Ht.
    cbn [invoke external_call bound] in Ht.
    destruct ns as [|c ns']; [now elim Hns | exact Ht]. }
  split; [exact Hfalsy | split; [exact Hnamed | split]];
    [|repeat split; apply Hfalsy; reflexivity].
  intros namespace ns Hcalls.
  assert (Hall : truthy (bound None namespace) = false -> False).
  { intro Hf. rewrite (Hfalsy namespace Hf) in Hcalls.
    apply app_inv_head in Hcalls. discriminate Hcalls. }
  destruct namespace as [|[s|]];
    [elim Hall; reflexivity | | elim Hall; reflexivity].
  destruct s as [|c s']; [elim Hall; reflexivity|].
  rewrite Hnamed in Hcalls by discriminate.
  apply app_inv_head in Hcalls. inversion Hcalls; subst.
  split; [reflexivity | discriminate].
Qed.

Lemma get_pods_namespace_truthiness_witness :
  let w := fake.start fake.busy in
  truthy (bound None (Given (Some ""))) = false
  /\ calls (snd (get_pods fake.v1 (Given (Some "")) w))
     = [v1_call client.list_pod_for_all_namespaces]
  /\ "default" <> ""
  /\ calls (snd (get_pods fake.v1 (Given (Some "default")) w))
     = [v1_call (client.list_namespaced_pod "default")].
Proof.
  intro w.
  destruct (get_pods_namespace_truthiness fake.v1 w) as [Hfalsy [Hns _]].
  assert (Hne : "default" <> "") by discriminate.
  split; [reflexivity | split; [|split; [exact Hne|]]].
  - apply (Hfalsy (Given (Some ""))). reflexivity.
  - apply (Hns "default" Hne).
Defined.

(** ** Module initialisation *)

(** C8.  The first call of the module is [load_kube_config] with the
    context ["kind-mcp-server"]; [load_incluster_config] is called if and
    only if that call raises.  When both raise, an error record is
    logged, no exception leaves the configuration loading, and the
    module goes on to construct the client: the constructor is the
    third and last call, and its result is the result of the module
    initialisation. *)
Theorem module_init_bootstrap {K} (kube : kubernetes K) (w : world K) :
  let first := load_kube_config kube "kind-mcp-server" (outside w) in
  let r := module_init kube w in
  (exists rest,
      calls (snd r)
      = (calls w ++ config_load_kube_config "kind-mcp-server" :: rest)%list
      /\ (In config_load_incluster_config rest <->
          exists e, fst first = Raised e)
      /\ In client_CoreV1Api rest)
  /\ (forall e1 e2 k2,
        fst first = Raised e1 ->
        load_incluster_config kube (snd first) = (Raised e2, k2) ->
        In (ERROR, "❌ 无法加载Kubernetes配置: " ++ str e2) (logged (snd r))
        /\ calls (snd r)
           = (calls w ++ [config_load_kube_config "kind-mcp-server";
                          config_load_incluster_config;
                          client_CoreV1Api])%list
        /\ fst r = fst (new_CoreV1Api kube k2)
        /\ (forall v1 k3,
              new_CoreV1Api kube k2 = (Returned v1, k3) ->
              fst r = Returned v1)).
Proof.
  intros first r. subst first r.
  unfold module_init, load_configuration. py_unfold.
  destruct (load_kube_config kube "kind-mcp-server" (outside w))
    as [[[]|e1] k1]; simpl.
  - split.
    + destruct (new_CoreV1Api kube k1) as [o k]; simpl.
      exists [client_CoreV1Api]. rewrite <- app_assoc.
      split; [reflexivity|split].
      * split.
        -- intros [H|[]]; discriminate H.
        -- intros [e H]; discriminate H.
      * left; reflexivity.
    + intros e1 e2 k2 H; discriminate H.
  - destruct (load_incluster_config kube k1) as [[[]|e2] k2'] eqn:E2; simpl.
    + split.
      * destruct (new_CoreV1Api kube k2') as [o k]; simpl.
        exists [config_load_incluster_config; client_CoreV1Api].
        rewrite <- !app_assoc.
        split; [reflexivity|split].
        -- split; [intros _; exists e1; reflexivity | intros _; left; reflexivity].
        -- right; left; reflexivity.
      * intros e1' e2 k2 _ H; discriminate H.
    + split.
      * destruct (new_CoreV1Api kube k2') as [o k]; simpl.
        exists [config_load_incluster_config; client_CoreV1Api].
        rewrite <- !app_assoc.
        split; [reflexivity|split].
        -- split; [intros _; exists e1; reflexivity | intros _; left; reflexivity].
        -- right; left; reflexivity.
      * intros e1' e2' k2 _ H. inversion H; subst e2' k2; clear H.
        destruct (new_CoreV1Api kube k2') as [o k] eqn:E3; simpl.
        split; [|split; [|split]].
        -- apply in_or_app. right. left. reflexivity.
        -- rewrite <- !app_assoc. reflexivity.
        -- reflexivity.
        -- intros v1 k3 H. inversion H; subst. reflexivity.
Qed.

(** A machine with no kube-config and no in-cluster credentials. *)
Lemma module_init_bootstrap_witness :
  let w := fake.start fake.unconfigured in
  let e1 := fake.ConfigException "Invalid kube-config file. No configuration found." in
  let e2 := fake.ConfigException "Service host/port is not set." in
  fst (load_kube_config fake.kube "kind-mcp-server" (outside w)) = Raised e1
  /\ load_incluster_config fake.kube
       (snd (load_kube_config fake.kube "kind-mcp-server" (outside w)))
     = (Raised e2, fake.unconfigured)
  /\ In (ERROR, "❌ 无法加载Kubernetes配置: " ++ str e2)
       (logged (snd (module_init fake.kube w)))
  /\ calls (snd (module_init fake.kube w))
     = [config_load_kube_config "kind-mcp-server";
        config_load_incluster_config; client_CoreV1Api]
  /\ fst (module_init fake.kube w) = Returned fake.v1.
Proof.
  intros w e1 e2.
  destruct (module_init_bootstrap fake.kube w) as [_ H].
  destruct (H e1 e2 fake.unconfigured eq_refl eq_refl)
    as [Hlog [Hcalls [_ Hv1]]].
  split; [reflexivity | split; [reflexivity|]].
  split; [exact Hlog | split; [exact Hcalls|]].
  apply (Hv1 fake.v1 fake.unconfigured). reflexivity.
Defined.

(** ** The command line *)

Section ArgparseFacts.

Import argparse.

Variable negative_number_matcher : string -> bool.
Variable parser : ArgumentParser_t.

Lemma attribute_setattr_same ns d v : attribute (setattr ns d v) d = Some v.
Proof.
  induction ns as [|[k x] ns IH]; simpl.
  - rewrite String.eqb_refl. reflexivity.
  - destruct (String.eqb k d) eqn:E; simpl; rewrite E; [reflexivity | exact IH].
Qed.

Lemma attribute_setattr_other ns d d' v :
  d <> d' -> attribute (setattr ns d' v) d = attribute ns d.
Proof.
  intro Hne. induction ns as [|[k x] ns IH]; simpl.
  - destruct (String.eqb d' d) eqn:E; [|reflexivity].
    apply String.eqb_eq in E. now elim Hne.
  - destruct (String.eqb k d') eqn:E; simpl.
    + apply String.eqb_eq in E. subst k.
      destruct (String.eqb d' d) eqn:E'; [|reflexivity].
      apply String.eqb_eq in E'. now elim Hne.
    + destruct (String.eqb k d); [reflexivity | exact IH].
Qed.

(** Setting an attribute to the value it has changes no attribute. *)
Lemma attribute_setattr_kept ns d v d' :
  attribute ns d = Some v -> attribute (setattr ns d v) d' = attribute ns d'.
Proof.
  intro H. destruct (string_dec d' d) as [->|Hne].
  - rewrite attribute_setattr_same. symmetry. exact H.
  - apply attribute_setattr_other. exact Hne.
Qed.

(** The explicit loop keeps the action tuples that it was given, in
    front of the ones that it adds. *)
Lemma consume_explicit_prefix e :
  forall a option_string action_tuples found pending,
    consume_explicit parser a option_string e action_tuples
    = Some (found, pending) ->
    exists more, found = (action_tuples ++ more)%list.
Proof.
  induction e as [|c e IH]; intros a os acc found pending H; simpl in H.
  - rewrite andb_false_r in H. simpl in H.
    destruct (Nat.eqb (nargs a) 1); [|discriminate H].
    inversion H; subst. eexists; reflexivity.
  - destruct (Nat.eqb (nargs a) 0 && negb (second_is_dash os) && true).
    + destruct (lookup (short_option os c) (option_string_actions parser))
        as [a'|]; [|discriminate H].
      destruct e as [|c' e'].
      * inversion H; subst. eexists; reflexivity.
      * apply IH in H. destruct H as [more ->].
        rewrite <- app_assoc. eexists; reflexivity.
    + destruct (Nat.eqb (nargs a) 1); [|discriminate H].
      inversion H; subst. eexists; reflexivity.
Qed.

(** Taking the help action ends the process. *)
Lemma take_actions_help a os rest ns seen :
  action a = help ->
  take_actions ((a, [], os) :: rest) ns seen = inl 0%Z.
Proof.
  intro Ha. simpl. unfold get_values. simpl. rewrite Ha. reflexivity.
Qed.

(** A token that names the help action never leaves [consume] with
    parsed arguments: the help is printed, or the token is in error. *)
Lemma consume_help s a os e rest ns seen extras args :
  action a = help ->
  consume parser ((s, O (Some a) os e) :: rest) ns seen extras <> Parsed args.
Proof.
  intros Ha H. simpl in H.
  assert (Hn : nargs a = 0%nat) by (unfold nargs; rewrite Ha; reflexivity).
  destruct e as [e|].
  - destruct (consume_explicit parser a os e []) as [[found pending]|] eqn:Ece;
      [|discriminate H].
    assert (Hfirst : exists more, found = (a, [], os) :: more).
    { destruct e as [|c e]; simpl in Ece; rewrite Hn in Ece; simpl in Ece.
      - rewrite andb_false_r in Ece. discriminate Ece.
      - destruct (negb (second_is_dash os)); simpl in Ece; [|discriminate Ece].
        destruct (lookup (short_option os c) (option_string_actions parser))
          as [a'|]; [|discriminate Ece].
        destruct e as [|c' e'].
        + inversion Ece; subst. eexists; reflexivity.
        + apply consume_explicit_prefix in Ece. destruct Ece as [more ->].
          eexists; reflexivity. }
    destruct Hfirst as [more ->].
    destruct pending as [[a' os']|].
    + destruct (Nat.eqb (nargs a') 0).
      * simpl app in H. rewrite (take_actions_help a os _ ns seen Ha) in H.
        discriminate H.
      * destruct rest as [|[arg [| |]] rest']; try discriminate H.
        simpl app in H. rewrite (take_actions_help a os _ ns seen Ha) in H.
        discriminate H.
    + rewrite (take_actions_help a os _ ns seen Ha) in H. discriminate H.
  - rewrite Hn in H. cbn [Nat.eqb app] in H.
    rewrite (take_actions_help a os [] ns seen Ha) in H. discriminate H.
Qed.

(** How [consume] reads a token that names a [store] action with an
    explicit argument. *)
Lemma consume_store_explicit s a os e rest ns seen extras type default :
  action a = store type default ->
  consume parser ((s, O (Some a) os (Some e)) :: rest) ns seen extras
  = match get_values a [e] with
    | None => SystemExit 2
    | Some v =>
        consume parser rest (setattr ns (dest a) v)
          (seen ++ [option_strings a])%list extras
    end.
Proof.
  intro Ha.
  assert (Hn : nargs a = 1%nat) by (unfold nargs; rewrite Ha; reflexivity).
  assert (Hce : consume_explicit parser a os e [] = Some ([(a, [e], os)], None)).
  { destruct e as [|c e]; simpl; rewrite Hn; reflexivity. }
  simpl. rewrite Hce. simpl.
  destruct (get_values a [e]) as [v|]; [|reflexivity].
  rewrite Ha. reflexivity.
Qed.

(** How [consume] reads a token that names a [store] action without an
    explicit argument: the value is the next token, if it is plain. *)
Lemma consume_store_following s a os rest ns seen extras type default :
  action a = store type default ->
  consume parser ((s, O (Some a) os None) :: rest) ns seen extras
  = match rest with
    | (arg, A) :: rest' =>
        match get_values a [arg] with
        | None => SystemExit 2
        | Some v =>
            consume parser rest' (setattr ns (dest a) v)
              (seen ++ [option_strings a])%list extras
        end
    | _ => SystemExit 2
    end.
Proof.
  intro Ha.
  assert (Hn : nargs a = 1%nat) by (unfold nargs; rewrite Ha; reflexivity).
  simpl. rewrite Hn. simpl.
  destruct rest as [|[arg [| |]] rest']; try reflexivity.
  simpl. destruct (get_values a [arg]) as [v|]; [|reflexivity].
  rewrite Ha. reflexivity.
Qed.

(** The strings of the marked tokens are the command line. *)
Lemma classify_strings argv :
  forall toks,
    classify negative_number_matcher parser argv = Some toks ->
    map fst toks = argv.
Proof.
  induction argv as [|tok rest IH]; intros toks H; simpl in H.
  - inversion H; reflexivity.
  - destruct (String.eqb tok "--") eqn:E.
    + inversion H; subst. simpl. f_equal.
      rewrite map_map. simpl. apply map_id.
    + destruct (parse_optional negative_number_matcher parser tok);
        try discriminate H;
        destruct (classify negative_number_matcher parser rest) as [toks'|];
        try discriminate H; inversion H; subst; simpl; f_equal;
        apply IH; reflexivity.
Qed.

(** Every option among the marked tokens is what [_parse_optional] says
    of its string. *)
Lemma classify_option argv :
  forall toks s a os e,
    classify negative_number_matcher parser argv = Some toks ->
    In (s, O a os e) toks ->
    parse_optional negative_number_matcher parser s = option_tuple a os e.
Proof.
  induction argv as [|tok rest IH]; intros toks s a os e H Hin; simpl in H.
  - inversion H; subst. destruct Hin.
  - destruct (String.eqb tok "--") eqn:E.
    + inversion H; subst. destruct Hin as [Hin|Hin]; [discriminate Hin|].
      apply in_map_iff in Hin. destruct Hin as [x [Hx _]]. discriminate Hx.
    + destruct (parse_optional negative_number_matcher parser tok) eqn:Ep;
        try discriminate H;
        destruct (classify negative_number_matcher parser rest) as [toks'|];
        try discriminate H; inversion H; subst;
        destruct Hin as [Hin|Hin];
        try discriminate Hin;
        try (exact (IH _ _ _ _ _ eq_refl Hin)).
      inversion Hin; subst. exact Ep.
Qed.

Lemma lookup_in key m a : lookup key m = Some a -> In (key, a) m.
Proof.
  induction m as [|[k x] m IH]; simpl; [discriminate|].
  destruct (String.eqb k key) eqn:E.
  - intro H. inversion H; subst. apply String.eqb_eq in E. subst. left; reflexivity.
  - intro H. right. exact (IH H).
Qed.

Lemma option_string_actions_in os a :
  In (os, a) (option_string_actions parser) ->
  In a parser /\ In os (option_strings a).
Proof.
  unfold option_string_actions. rewrite in_flat_map.
  intros [a' [Ha H]]. apply in_map_iff in H. destruct H as [s [Hs Hin]].
  inversion Hs; subst. split; assumption.
Qed.

Lemma get_option_tuples_in tok a os e :
  In (a, os, e) (get_option_tuples parser tok) ->
  In (os, a) (option_string_actions parser).
Proof.
  unfold get_option_tuples.
  destruct tok as [|c0 [|c1 tail]]; try (intros []).
  destruct (Ascii.eqb c1 "-").
  - destruct (split_eq (String c0 (String c1 tail))) as [pre post].
    rewrite in_flat_map. intros [[os' a'] [Hin H]].
    destruct (String.prefix pre os'); [|destruct H].
    destruct H as [H|[]]. inversion H; subst. exact Hin.
  - rewrite in_flat_map. intros [[os' a'] [Hin H]].
    destruct (String.eqb os' _).
    + destruct H as [H|[]]. inversion H; subst. exact Hin.
    + destruct (String.prefix _ os'); [|destruct H].
      destruct H as [H|[]]. inversion H; subst. exact Hin.
Qed.

(** An option that a token is read as is one of the parser's actions,
    under one of its option strings. *)
Lemma parse_optional_in tok a os e :
  parse_optional negative_number_matcher parser tok
  = option_tuple (Some a) os e ->
  In a parser /\ In os (option_strings a).
Proof.
  assert (Habbr : parse_abbreviation negative_number_matcher parser tok
                  = option_tuple (Some a) os e ->
                  In a parser /\ In os (option_strings a)).
  { unfold parse_abbreviation.
    destruct (get_option_tuples parser tok) as [|[[a0 os0] e0] [|p l]] eqn:Et.
    - destruct (negative_number_matcher tok); [discriminate|].
      destruct (has_space tok); discriminate.
    - intro H. inversion H; subst.
      apply option_string_actions_in.
      apply (get_option_tuples_in tok a os e). rewrite Et. left; reflexivity.
    - discriminate. }
  unfold parse_optional. destruct tok as [|c0 rest]; [discriminate|].
  destruct (negb (Ascii.eqb c0 "-")); [discriminate|].
  destruct (lookup (String c0 rest) (option_string_actions parser))
    as [a0|] eqn:Ex.
  - intro H. inversion H; subst.
    apply option_string_actions_in. exact (lookup_in _ _ _ Ex).
  - destruct (String.eqb rest ""); [discriminate|].
    destruct (split_eq (String c0 rest)) as [pre [post|]].
    + destruct (lookup pre (option_string_actions parser)) as [a0|] eqn:Ex'.
      * intro H. inversion H; subst.
        apply option_string_actions_in. exact (lookup_in _ _ _ Ex').
      * exact Habbr.
    + exact Habbr.
Qed.

(** What a command line that [consume] accepts looks like: nothing was
    left over, it has no [--] and no option that the parser lacks,
    every option in it belongs to a [store] action, and, where the
    conversion of the defaults changes no attribute, an attribute that
    no option of the line stores keeps its value. *)
Lemma consume_parsed n :
  (forall seen ns,
      exists ns',
        convert_defaults parser seen ns = Some ns'
        /\ forall d, attribute ns' d = attribute ns d) ->
  forall toks, (length toks <= n)%nat ->
  forall ns seen extras args,
    consume parser toks ns seen extras = Parsed args ->
    extras = []
    /\ (forall s, ~ In (s, dash) toks)
    /\ (forall s os e, ~ In (s, O None os e) toks)
    /\ (forall s a os e, In (s, O (Some a) os e) toks -> action a <> help)
    /\ (forall d,
          (forall s a os e, In (s, O (Some a) os e) toks -> dest a <> d) ->
          attribute args d = attribute ns d).
Proof.
  intro Hconv.
  induction n as [|n IH]; intros toks Hlen ns seen extras args Hc.
  - destruct toks as [|t toks]; [|simpl in Hlen; lia].
    simpl in Hc. destruct (Hconv seen ns) as [ns' [Hcd Hattr]].
    rewrite Hcd in Hc. destruct extras; [|discriminate Hc].
    inversion Hc; subst.
    split; [reflexivity|]. split; [intros s0 []|].
    split; [intros s0 os0 e0 []|]. split; [intros s0 a0 os0 e0 []|].
    intros d _. apply Hattr.
  - destruct toks as [|[s p] toks].
    + simpl in Hc. destruct (Hconv seen ns) as [ns' [Hcd Hattr]].
      rewrite Hcd in Hc. destruct extras; [|discriminate Hc].
      inversion Hc; subst.
      split; [reflexivity|]. split; [intros s0 []|].
    split; [intros s0 os0 e0 []|]. split; [intros s0 a0 os0 e0 []|].
    intros d _. apply Hattr.
    + simpl in Hlen. assert (Hlen' : (length toks <= n)%nat) by lia.
      assert (Hextra : forall x,
                 consume parser toks ns seen (extras ++ [x])%list
                 = Parsed args -> False).
      { intros x Hx. apply (IH toks Hlen') in Hx. destruct Hx as [He _].
        destruct extras; discriminate He. }
      destruct p as [|[a|] os e|].
      * simpl in Hc. elim (Hextra s Hc).
      * destruct (action a) as [type default|] eqn:Ea;
          [|elim (consume_help _ _ _ _ _ _ _ _ _ Ea Hc)].
        assert (Hstep : forall rest v,
                   (length rest <= n)%nat ->
                   (forall t', In t' rest ->
                               In t' ((s, O (Some a) os e) :: toks)) ->
                   consume parser rest (setattr ns (dest a) v)
                     (seen ++ [option_strings a])%list extras = Parsed args ->
                   extras = []
                   /\ (forall s', ~ In (s', dash) rest)
                   /\ (forall s' os' e', ~ In (s', O None os' e') rest)
                   /\ (forall s' a' os' e',
                         In (s', O (Some a') os' e') rest -> action a' <> help)
                   /\ (forall d,
                         (forall s' a' os' e',
                             In (s', O (Some a') os' e')
                               ((s, O (Some a) os e) :: toks) ->
                             dest a' <> d) ->
                         attribute args d = attribute ns d)).
        { intros rest v Hr Hsub Hrest.
          destruct (IH rest Hr _ _ _ _ Hrest) as [He [HD [HU [HO Hd]]]].
          repeat split; try assumption.
          intros d Hnot. rewrite Hd.
          - apply attribute_setattr_other. intro Heq. subst d.
            apply (Hnot s a os e); [left; reflexivity | reflexivity].
          - intros s' a' os' e' Hin. apply (Hnot s' a' os' e').
            apply Hsub. exact Hin. }
        destruct e as [e|].
        -- rewrite (consume_store_explicit _ _ _ _ _ _ _ _ _ _ Ea) in Hc.
           destruct (get_values a [e]) as [v|]; [|discriminate Hc].
           destruct (Hstep toks v Hlen' (fun t' H => or_intror H) Hc)
             as [He [HD [HU [HO Hd]]]].
           split; [exact He|]. split; [|split; [|split]].
           ++ intros s' [H|H]; [discriminate H | exact (HD s' H)].
           ++ intros s' os' e' [H|H]; [discriminate H | exact (HU s' os' e' H)].
           ++ intros s' a' os' e' [H|H]; [|exact (HO s' a' os' e' H)].
              inversion H; subst. rewrite Ea. discriminate.
           ++ exact Hd.
        -- rewrite (consume_store_following _ _ _ _ _ _ _ _ _ Ea) in Hc.
           destruct toks as [|[arg [| |]] rest]; try discriminate Hc.
           destruct (get_values a [arg]) as [v|]; [|discriminate Hc].
           simpl in Hlen'.
           assert (Hr : (length rest <= n)%nat) by lia.
           destruct (Hstep rest v Hr
                       (fun t' H => or_intror (or_intror H)) Hc)
             as [He [HD [HU [HO Hd]]]].
           split; [exact He|]. split; [|split; [|split]].
           ++ intros s' [H|[H|H]]; [discriminate H | discriminate H
                                    | exact (HD s' H)].
           ++ intros s' os' e' [H|[H|H]];
                [discriminate H | discriminate H | exact (HU s' os' e' H)].
           ++ intros s' a' os' e' [H|[H|H]];
                [| discriminate H | exact (HO s' a' os' e' H)].
              inversion H; subst. rewrite Ea. discriminate.
           ++ exact Hd.
      * simpl in Hc. elim (Hextra s Hc).
      * simpl in Hc. elim (Hextra s Hc).
Qed.

(** Where every string default belongs to an action without [type], the
    conversion of the defaults succeeds and changes no attribute. *)
Lemma convert_defaults_kept (actions : list Action) :
  (forall a type d,
      In a actions -> action a = store type (VStr d) -> type = None) ->
  forall seen ns,
    exists ns',
      convert_defaults actions seen ns = Some ns'
      /\ forall d, attribute ns' d = attribute ns d.
Proof.
  induction actions as [|a rest IH]; intros Hnone seen ns; simpl.
  - exists ns. split; reflexivity.
  - assert (Hrest : forall a' type d,
               In a' rest -> action a' = store type (VStr d) -> type = None).
    { intros a' type d Hin. apply Hnone. right. exact Hin. }
    destruct (in_seen a seen); [apply (IH Hrest)|].
    destruct (action a) as [type [d| |]|] eqn:Ea; try apply (IH Hrest).
    destruct (attribute ns (dest a)) as [[d'| |]|] eqn:Eattr;
      try apply (IH Hrest).
    destruct (String.eqb d d') eqn:Ed; [|apply (IH Hrest)].
    apply String.eqb_eq in Ed. subst d'.
    pose proof (Hnone a type d (or_introl eq_refl) Ea) as Htype. subst type.
    unfold get_value. rewrite Ea.
    destruct (IH Hrest seen (setattr ns (dest a) (VStr d))) as [ns' [Hcd Hattr]].
    exists ns'. split; [exact Hcd|].
    intro d0. rewrite Hattr. apply attribute_setattr_kept. exact Eattr.
Qed.

(** A property of the namespace that every [store] of the command line
    keeps, and that the conversion of the defaults keeps, holds of the
    parsed arguments.  The argument of a [store] is the explicit
    argument of its token or a plain token of the line. *)
Lemma consume_invariant (P : Namespace -> Prop) n :
  (forall seen ns ns',
      convert_defaults parser seen ns = Some ns' -> P ns -> P ns') ->
  forall toks, (length toks <= n)%nat ->
  forall ns seen extras args,
    (forall s a os e arg v ns0,
        In (s, O (Some a) os e) toks ->
        e = Some arg \/ In (arg, A) toks ->
        get_values a [arg] = Some v ->
        P ns0 -> P (setattr ns0 (dest a) v)) ->
    P ns ->
    consume parser toks ns seen extras = Parsed args ->
    P args.
Proof.
  intro Hconv.
  induction n as [|n IH]; intros toks Hlen ns seen extras args Hstore HP Hc.
  - destruct toks as [|t toks]; [|simpl in Hlen; lia].
    simpl in Hc.
    destruct (convert_defaults parser seen ns) as [ns'|] eqn:Ecd;
      [|discriminate Hc].
    destruct extras; [|discriminate Hc].
    inversion Hc; subst. exact (Hconv _ _ _ Ecd HP).
  - destruct toks as [|[s p] toks].
    + simpl in Hc.
      destruct (convert_defaults parser seen ns) as [ns'|] eqn:Ecd;
        [|discriminate Hc].
      destruct extras; [|discriminate Hc].
      inversion Hc; subst. exact (Hconv _ _ _ Ecd HP).
    + simpl in Hlen. assert (Hlen' : (length toks <= n)%nat) by lia.
      assert (Hskip : forall x,
                 consume parser toks ns seen (extras ++ [x])%list = Parsed args ->
                 P args).
      { intros x Hx.
        apply (IH toks Hlen' ns seen (extras ++ [x])%list args);
          try assumption.
        intros s0 a0 os0 e0 arg v ns0 Hin Harg.
        apply (Hstore s0 a0 os0 e0 arg v ns0); [right; exact Hin|].
        destruct Harg as [H|H]; [left; exact H | right; right; exact H]. }
      destruct p as [|[a|] os e|]; try (simpl in Hc; exact (Hskip s Hc)).
      destruct (action a) as [type default|] eqn:Ea;
        [|elim (consume_help _ _ _ _ _ _ _ _ _ Ea Hc)].
      destruct e as [e|].
      * rewrite (consume_store_explicit _ _ _ _ _ _ _ _ _ _ Ea) in Hc.
        destruct (get_values a [e]) as [v|] eqn:Ev; [|discriminate Hc].
        apply (IH toks Hlen' (setattr ns (dest a) v)
                 (seen ++ [option_strings a])%list extras args);
          try assumption.
        -- intros s0 a0 os0 e0 arg v0 ns0 Hin Harg.
           apply (Hstore s0 a0 os0 e0 arg v0 ns0); [right; exact Hin|].
           destruct Harg as [H|H]; [left; exact H | right; right; exact H].
        -- apply (Hstore s a os (Some e) e v ns);
             [left; reflexivity | left; reflexivity | exact Ev | exact HP].
      * rewrite (consume_store_following _ _ _ _ _ _ _ _ _ Ea) in Hc.
        destruct toks as [|[arg [| |]] rest]; try discriminate Hc.
        destruct (get_values a [arg]) as [v|] eqn:Ev; [|discriminate Hc].
        simpl in Hlen'.
        assert (Hr : (length rest <= n)%nat) by lia.
        apply (IH rest Hr (setattr ns (dest a) v)
                 (seen ++ [option_strings a])%list extras args);
          try assumption.
        -- intros s0 a0 os0 e0 arg0 v0 ns0 Hin Harg.
           apply (Hstore s0 a0 os0 e0 arg0 v0 ns0);
             [right; right; exact Hin|].
           destruct Harg as [H|H];
             [left; exact H | right; right; right; exact H].
        -- apply (Hstore s a os None arg v ns);
             [left; reflexivity | right; right; left; reflexivity
             | exact Ev | exact HP].
Qed.

(** Tokens added after a command line that parses are read from the
    state that it left. *)
Lemma consume_app n :
  (forall seen ns,
      exists ns',
        convert_defaults parser seen ns = Some ns'
        /\ forall d, attribute ns' d = attribute ns d) ->
  forall toks, (length toks <= n)%nat ->
  forall ns seen extras args,
    consume parser toks ns seen extras = Parsed args ->
    exists ns1 seen1,
      (forall d, attribute args d = attribute ns1 d)
      /\ forall more,
           consume parser (toks ++ more) ns seen extras
           = consume parser more ns1 seen1 [].
Proof.
  intro Hconv.
  induction n as [|n IH]; intros toks Hlen ns seen extras args Hc.
  - destruct toks as [|t toks]; [|simpl in Hlen; lia].
    simpl in Hc. destruct (Hconv seen ns) as [ns' [Hcd Hattr]].
    rewrite Hcd in Hc. destruct extras; [|discriminate Hc].
    inversion Hc; subst. exists ns, seen. split; [exact Hattr | reflexivity].
  - destruct toks as [|[s p] toks].
    + simpl in Hc. destruct (Hconv seen ns) as [ns' [Hcd Hattr]].
      rewrite Hcd in Hc. destruct extras; [|discriminate Hc].
      inversion Hc; subst. exists ns, seen. split; [exact Hattr | reflexivity].
    + simpl in Hlen. assert (Hlen' : (length toks <= n)%nat) by lia.
      assert (Hextra : forall x,
                 consume parser toks ns seen (extras ++ [x])%list
                 = Parsed args -> False).
      { intros x Hx.
        destruct (consume_parsed _ Hconv _ (le_n _) _ _ _ _ Hx) as [He _].
        destruct extras; discriminate He. }
      destruct p as [|[a|] os e|]; try (simpl in Hc; elim (Hextra s Hc)).
      destruct (action a) as [type default|] eqn:Ea;
        [|elim (consume_help _ _ _ _ _ _ _ _ _ Ea Hc)].
      destruct e as [e|].
      * rewrite (consume_store_explicit _ _ _ _ _ _ _ _ _ _ Ea) in Hc.
        destruct (get_values a [e]) as [v|] eqn:Ev; [|discriminate Hc].
        destruct (IH toks Hlen' _ _ _ _ Hc) as [ns1 [seen1 [Hattr Happ]]].
        exists ns1, seen1. split; [exact Hattr|].
        intro more. simpl app.
        rewrite (consume_store_explicit _ _ _ _ _ _ _ _ _ _ Ea), Ev.
        apply Happ.
      * rewrite (consume_store_following _ _ _ _ _ _ _ _ _ Ea) in Hc.
        destruct toks as [|[arg [| |]] rest]; try discriminate Hc.
        destruct (get_values a [arg]) as [v|] eqn:Ev; [|discriminate Hc].
        simpl in Hlen'.
        assert (Hr : (length rest <= n)%nat) by lia.
        destruct (IH rest Hr _ _ _ _ Hc) as [ns1 [seen1 [Hattr Happ]]].
        exists ns1, seen1. split; [exact Hattr|].
        intro more. simpl app.
        rewrite (consume_store_following _ _ _ _ _ _ _ _ _ Ea), Ev.
        apply Happ.
Qed.

(** A command line without a [--] is marked token by token. *)
Lemma classify_app argv more :
  forall toks,
    classify negative_number_matcher parser argv = Some toks ->
    (forall s, ~ In (s, dash) toks) ->
    classify negative_number_matcher parser (argv ++ more)
    = option_map (app toks) (classify negative_number_matcher parser more).
Proof.
  induction argv as [|tok rest IH]; intros toks H Hno; simpl in H |- *.
  - inversion H; subst.
    destruct (classify negative_number_matcher parser more); reflexivity.
  - destruct (String.eqb tok "--") eqn:E.
    + inversion H; subst. elim (Hno tok). left; reflexivity.
    + destruct (parse_optional negative_number_matcher parser tok);
        try discriminate H;
        destruct (classify negative_number_matcher parser rest) as [toks'|]
          eqn:Ec; try discriminate H; inversion H; subst;
        (rewrite (IH toks' eq_refl);
         [destruct (classify negative_number_matcher parser more); reflexivity
         |intros s0 Hin; apply (Hno s0); right; exact Hin]).
Qed.

End ArgparseFacts.

Section ScriptParserFacts.

Variable int : string -> option Z.
Variable negative_number : string -> bool.

(** The actions of the script's parser. *)
Lemma parser_actions a :
  In a (parser int) ->
  argparse.action a = argparse.help
  \/ (argparse.option_strings a = ["--host"]
      /\ argparse.dest a = "host"
      /\ argparse.action a
         = argparse.store None (argparse.VStr "0.0.0.0"))
  \/ (argparse.option_strings a = ["--port"]
      /\ argparse.dest a = "port"
      /\ argparse.action a
         = argparse.store (Some (type_int int)) (argparse.VInt 8081)).
Proof. intros [H|[H|[H|[]]]]; subst a; simpl; auto. Qed.

(** The conversion of the defaults changes no attribute of the script's
    namespace: its one string default has no [type]. *)
Lemma parser_defaults_kept :
  forall seen ns,
    exists ns',
      argparse.convert_defaults (parser int) seen ns = Some ns'
      /\ forall d, argparse.attribute ns' d = argparse.attribute ns d.
Proof.
  apply convert_defaults_kept.
  intros a type d Hin Ha.
  destruct (parser_actions a Hin) as [H|[[_ [_ H]]|[_ [_ H]]]];
    rewrite H in Ha; inversion Ha; reflexivity.
Qed.

(** A token that the script's parser reads as a plain argument is not
    the [--]. *)
Lemma positional_not_dashdash s :
  argparse.parse_optional negative_number (parser int) s = argparse.positional ->
  String.eqb s "--" = false.
Proof.
  intro H. destruct (String.eqb s "--") eqn:E; [|reflexivity].
  apply String.eqb_eq in E. subst s. discriminate H.
Qed.

End ScriptParserFacts.

(** C9.  The parser of the script has two options of its own, [--host]
    and [--port], next to the [-h]/[--help] that argparse adds, which
    prints the help and ends the process with status 0 before a server
    is started.  Whenever the script gets as far as [uvicorn.run],
    every option on its command line is [--host] or [--port]; the host
    is ["0.0.0.0"] when the line has no [--host] option and the port is
    8081 when it has no [--port] option.  Both options are accepted and
    give the host and the port of the server. *)
Theorem command_line_flags (int : string -> option Z)
  (negative_number : string -> bool) :
  map argparse.option_strings (parser int)
  = [["-h"; "--help"]; ["--host"]; ["--port"]]
  /\ main int negative_number []
     = uvicorn_run (argparse.VStr "0.0.0.0") (argparse.VInt 8081)
  /\ main int negative_number ["-h"] = exited 0
  /\ main int negative_number ["--help"] = exited 0
  /\ (forall argv host port,
        main int negative_number argv = uvicorn_run host port ->
        exists toks,
          argparse.classify negative_number (parser int) argv = Some toks
          /\ (forall s a os e,
                In (s, argparse.O a os e) toks ->
                exists act,
                  a = Some act
                  /\ (argparse.option_strings act = ["--host"]
                      \/ argparse.option_strings act = ["--port"]))
          /\ ((forall s act os e,
                  In (s, argparse.O (Some act) os e) toks ->
                  argparse.option_strings act <> ["--host"]) ->
              host = argparse.VStr "0.0.0.0")
          /\ ((forall s act os e,
                  In (s, argparse.O (Some act) os e) toks ->
                  argparse.option_strings act <> ["--port"]) ->
              port = argparse.VInt 8081))
  /\ (forall h,
        argparse.parse_optional negative_number (parser int) h
        = argparse.positional ->
        main int negative_number ["--host"; h]
        = uvicorn_run (argparse.VStr h) (argparse.VInt 8081))
  /\ (forall s z,
        argparse.parse_optional negative_number (parser int) s
        = argparse.positional ->
        int s = Some z ->
        main int negative_number ["--port"; s]
        = uvicorn_run (argparse.VStr "0.0.0.0") (argparse.VInt z)).
Proof.
  split; [reflexivity | split; [reflexivity | split; [reflexivity|]]].
  split; [reflexivity | split; [|split]].
  - intros argv host port Hmain.
    unfold main, argparse.parse_args in Hmain.
    destruct (argparse.classify negative_number (parser int) argv)
      as [toks|] eqn:Ecl; [|discriminate Hmain].
    exists toks. split; [reflexivity|].
    destruct (argparse.consume (parser int) toks
                (argparse.defaults (parser int) []) [] [])
      as [args|code] eqn:Ec; [|discriminate Hmain].
    destruct (consume_parsed (parser int) _ (parser_defaults_kept int)
                _ (le_n _) _ _ _ _ Ec)
      as [_ [_ [HU [HO Hd]]]].
    assert (Hopt : forall s act os e,
               In (s, argparse.O (Some act) os e) toks ->
               (argparse.option_strings act = ["--host"]
                /\ argparse.dest act = "host")
               \/ (argparse.option_strings act = ["--port"]
                   /\ argparse.dest act = "port")).
    { intros s act os e Hin.
      pose proof (classify_option _ _ _ _ _ _ _ _ Ecl Hin) as Hp.
      apply parse_optional_in in Hp. destruct Hp as [Hact _].
      destruct (parser_actions int act Hact) as [Hh|[[H1 [H2 _]]|[H1 [H2 _]]]];
        [elim (HO s act os e Hin Hh) | left | right]; split; assumption. }
    destruct (argparse.attribute args "host") as [host'|] eqn:Eh;
      [|discriminate Hmain].
    destruct (argparse.attribute args "port") as [port'|] eqn:Ep;
      [|discriminate Hmain].
    inversion Hmain; subst host' port'; clear Hmain.
    split; [|split].
    + intros s [act|] os e Hin; [|elim (HU s os e Hin)].
      exists act. split; [reflexivity|].
      destruct (Hopt s act os e Hin) as [[H _]|[H _]]; auto.
    + intro Hno.
      assert (Hkeep : argparse.attribute args "host"
                      = argparse.attribute
                          (argparse.defaults (parser int) []) "host").
      { apply Hd. intros s act os e Hin Hdest.
        destruct (Hopt s act os e Hin) as [[H _]|[_ H]].
        - exact (Hno s act os e Hin H).
        - rewrite H in Hdest. discriminate Hdest. }
      rewrite Eh in Hkeep. inversion Hkeep. reflexivity.
    + intro Hno.
      assert (Hkeep : argparse.attribute args "port"
                      = argparse.attribute
                          (argparse.defaults (parser int) []) "port").
      { apply Hd. intros s act os e Hin Hdest.
        destruct (Hopt s act os e Hin) as [[_ H]|[H _]].
        - rewrite H in Hdest. discriminate Hdest.
        - exact (Hno s act os e Hin H). }
      rewrite Ep in Hkeep. inversion Hkeep. reflexivity.
  - intros h Hh. unfold main, argparse.parse_args.
    cbn [argparse.classify].
    rewrite (positional_not_dashdash int negative_number h Hh), Hh.
    cbn. rewrite (positional_not_dashdash int negative_number h Hh).
    reflexivity.
  - intros s z Hs Hz. unfold main, argparse.parse_args.
    cbn [argparse.classify].
    rewrite (positional_not_dashdash int negative_number s Hs), Hs.
    cbn. rewrite (positional_not_dashdash int negative_number s Hs).
    cbn. unfold type_int. rewrite Hz. reflexivity.
Qed.

Lemma command_line_flags_witness :
  argparse.parse_optional fake.negative_number (parser fake.int) "127.0.0.1"
  = argparse.positional
  /\ main fake.int fake.negative_number ["--host"; "127.0.0.1"]
     = uvicorn_run (argparse.VStr "127.0.0.1") (argparse.VInt 8081)
  /\ argparse.parse_optional fake.negative_number (parser fake.int) "9000"
     = argparse.positional
  /\ fake.int "9000" = Some 9000%Z
  /\ main fake.int fake.negative_number ["--port"; "9000"]
     = uvicorn_run (argparse.VStr "0.0.0.0") (argparse.VInt 9000)
  /\ main fake.int fake.negative_number ["--ho=10.0.0.7"]
     = uvicorn_run (argparse.VStr "10.0.0.7") (argparse.VInt 8081)
  /\ exists toks,
       argparse.classify fake.negative_number (parser fake.int)
         ["--ho=10.0.0.7"] = Some toks
       /\ (forall s a os e,
             In (s, argparse.O a os e) toks ->
             exists act,
               a = Some act
               /\ (argparse.option_strings act = ["--host"]
                   \/ argparse.option_strings act = ["--port"])).
Proof.
  destruct (command_line_flags fake.int fake.negative_number)
    as [_ [_ [_ [_ [Hrun [Hhost Hport]]]]]].
  split; [reflexivity | split; [|split; [reflexivity | split; [reflexivity|]]]].
  - apply (Hhost "127.0.0.1"). reflexivity.
  - split; [apply (Hport "9000" 9000%Z); reflexivity|].
    split; [reflexivity|].
    destruct (Hrun ["--ho=10.0.0.7"] (argparse.VStr "10.0.0.7")
                (argparse.VInt 8081) eq_refl) as [toks [Hc [Hopt _]]].
    exists toks. split; [exact Hc | exact Hopt].
Defined.

(** [--help] is a third flag that the command line accepts: the parser
    reads it as its help action and the process ends with status 0,
    where a flag that the parser does not have ends it with status 2.
    So not every flag that the parser accepts is [--host] or
    [--port]. *)
Lemma command_line_accepts_help :
  main fake.int fake.negative_number ["--help"] = exited 0
  /\ main fake.int fake.negative_number ["--verbose"] = exited 2
  /\ ~ (forall tok a os e,
          argparse.parse_optional fake.negative_number (parser fake.int) tok
          = argparse.option_tuple (Some a) os e ->
          argparse.option_strings a = ["--host"]
          \/ argparse.option_strings a = ["--port"]).
Proof.
  split; [reflexivity | split; [reflexivity|]].
  intro H.
  specialize
    (H "--help"
       {| argparse.option_strings := ["-h"; "--help"];
          argparse.dest := "help";
          argparse.action := argparse.help |}
       "--help" None eq_refl).
  destruct H as [H|H]; discriminate H.
Qed.

(** ** Runs on the in-memory cluster *)

(** A pod that has no container status yet: the subscript in the
    f-string raises, and [get_pods] answers with its error string. *)
Example get_pods_pending_pod :
  let pending :=
    {| models.metadata :=
         Some {| models.name := Some "demo";
                 models.namespace := Some "default";
                 models.creation_timestamp := None |};
       models.status :=
         Some {| models.phase := Some "Pending";
                 models.container_statuses := None;
                 models.pod_ip := None |};
       models.spec := Some {| models.node_name := None |} |} in
  let v1 : CoreV1Api unit :=
    fun r =>
      match r as r0 return unit -> outcome (client.response r0) * unit with
      | client.list_pod_for_all_namespaces => fun k =>
          (Returned {| models.items := [pending] |}, k)
      | _ => fun k => (Raised fake.MaxRetryError, k)
      end in
  fst (get_pods v1 Omitted (mkWorld [] [] tt))
  = Returned "Error retrieving pods: 'NoneType' object is not subscriptable".
Proof. reflexivity. Qed.

Example main_help_exits :
  main fake.int fake.negative_number ["--help"] = exited 0.
Proof. reflexivity. Qed.

Example main_unknown_option_rejected :
  main fake.int fake.negative_number ["--verbose"] = exited 2.
Proof. reflexivity. Qed.

Example main_abbreviated_options :
  main fake.int fake.negative_number ["--po"; "9000"; "--ho=127.0.0.1"]
  = uvicorn_run (argparse.VStr "127.0.0.1") (argparse.VInt 9000).
Proof. reflexivity. Qed.

(** The parser has no positional argument: a [--] token is left over
    and the command line is rejected. *)
Example main_dashdash_rejected :
  main fake.int fake.negative_number ["--"] = exited 2
  /\ main fake.int fake.negative_number ["--host"; "--"; "foo"] = exited 2.
Proof. split; reflexivity. Qed.

(** An explicit argument [--] is removed before the conversion and the
    option stores the empty list. *)
Example main_explicit_dashdash :
  main fake.int fake.negative_number ["--port=--"]
  = uvicorn_run (argparse.VStr "0.0.0.0") (argparse.VList [])
  /\ main fake.int fake.negative_number ["--host=--"]
     = uvicorn_run (argparse.VList []) (argparse.VInt 8081).
Proof. split; reflexivity. Qed.

(** Short options without argument can be written together. *)
Example main_help_twice :
  main fake.int fake.negative_number ["-hh"] = exited 0
  /\ main fake.int fake.negative_number ["-hx"] = exited 2.
Proof. split; reflexivity. Qed.

(** * Further properties of the handlers *)

Section FormattingFacts.

Context {K : Type}.

(** Formatting a pod reads no state: the outcome is the same in every
    world, and the world is left as it is. *)
Lemma pod_details_pure (pod : models.V1Pod) :
  exists o, forall w : world K, pod_details pod w = (o, w).
Proof.
  destruct pod as [[m|] [[ph [[|c cs]|] ip]|] [sp|]];
    unfold pod_details; py_unfold; eexists; intro w; reflexivity.
Qed.

(** The block of a pod that has metadata, a status with at least one
    container status, and a spec. *)
Lemma pod_details_returns (pod : models.V1Pod) m st c cs sp :
  models.metadata pod = Some m ->
  models.status pod = Some st ->
  models.container_statuses st = Some (c :: cs) ->
  models.spec pod = Some sp ->
  forall w : world K,
    pod_details pod w
    = (Returned
         (nl ++ "Pod: " ++ str (models.name m) ++ nl
          ++ "Namespace: " ++ str (models.namespace m) ++ nl
          ++ "Status: " ++ str (models.phase st) ++ nl
          ++ "Container Status: " ++ str (models.state c) ++ nl
          ++ "IP: " ++ str (models.pod_ip st) ++ nl
          ++ "Node: " ++ str (models.node_name sp) ++ nl
          ++ "Created: " ++ str (models.creation_timestamp m) ++ nl), w).
Proof.
  intros Hm Hst Hcs Hsp w. unfold pod_details.
  rewrite Hm, Hst, Hsp. unfold getattr, bind, ret. rewrite Hcs. reflexivity.
Qed.

(** A loop stops at the first element whose body raises, with that
    exception. *)
Lemma for_append_raises {A} (body : A -> Py K string) good blocks bad rest e :
  Forall2 (fun x b => forall w, body x w = (Returned b, w)) good blocks ->
  (forall w, body bad w = (Raised e, w)) ->
  forall acc w,
    for_append body (good ++ bad :: rest) acc w = (Raised e, w).
Proof.
  intros Hgood Hbad.
  induction Hgood as [|x b xs bs Hx _ IH]; intros acc w; simpl.
  - unfold bind. rewrite Hbad. reflexivity.
  - unfold bind. rewrite Hx. apply IH.
Qed.

(** Two loops over lists whose elements have pairwise the same outcome
    have the same outcome. *)
Lemma for_append_same {A} (body : A -> Py K string) xs ys :
  Forall2
    (fun x y =>
       exists o, (forall w, body x w = (o, w)) /\ (forall w, body y w = (o, w)))
    xs ys ->
  forall acc w w',
    fst (for_append body xs acc w) = fst (for_append body ys acc w').
Proof.
  induction 1 as [|x y xs ys [o [Hx Hy]] _ IH]; intros acc w w'; simpl.
  - reflexivity.
  - unfold bind. rewrite Hx, Hy. destruct o as [b|e]; [apply IH | reflexivity].
Qed.

End FormattingFacts.

(** X1.  Every tool call sends exactly one request to the cluster
    client, also when the answer cannot be formatted, and the state
    outside the process is the one that this request left. *)
Theorem handlers_send_one_request {K} (v1 : CoreV1Api K) (i : invocation)
  (w : world K) :
  calls (snd (invoke v1 i w)) = (calls w ++ [v1_call (external_call i)])%list
  /\ outside (snd (invoke v1 i w)) = snd (v1 (external_call i) (outside w)).
Proof.
  split; [apply invoke_calls_once|].
  destruct i; unfold invoke, external_call;
    autounfold with handlers; cbv zeta; unfold try_except, bind.
  - destruct (bound None namespace) as [ns|]; [destruct (truthy ns)|];
      rewrite call_runs;
      match goal with
      | |- context [ v1 ?r (outside w) ] =>
          destruct (v1 r (outside w)) as [[pods|e] k]; simpl; try reflexivity
      end;
      (destruct (truthy (models.items pods)); simpl; [|reflexivity];
       match goal with
       | |- context [ for_append ?b ?xs ?acc ?w0 ] =>
           pose proof (for_append_world b xs pod_details_world acc w0) as Hw;
           destruct (for_append b xs acc w0) as [[l|e] w1]; simpl in *;
           subst w1; reflexivity
       end).
  - rewrite call_runs. destruct (v1 _ (outside w)) as [[a|e] k]; reflexivity.
  - rewrite call_runs. destruct (v1 _ (outside w)) as [[a|e] k]; reflexivity.
  - rewrite call_runs. destruct (v1 _ (outside w)) as [[a|e] k]; reflexivity.
  - rewrite call_runs. destruct (v1 _ (outside w)) as [[a|e] k]; reflexivity.
  - rewrite call_runs. destruct (v1 _ (outside w)) as [[a|e] k]; reflexivity.
  - rewrite call_runs.
    destruct (v1 _ (outside w)) as [[events|e] k]; simpl; try reflexivity.
    destruct (truthy (pod_events_of pod_name events)); simpl; [|reflexivity].
    match goal with
    | |- context [ for_append ?b ?xs ?acc ?w0 ] =>
        pose proof (for_append_world b xs event_details_world acc w0) as Hw;
        destruct (for_append b xs acc w0) as [[l|e] w1]; simpl in *;
        subst w1; reflexivity
    end.
Qed.

(** X2.  A tool call writes to the log only when it fails: either the
    log is left as it was, or exactly one record is added, of level
    ERROR, that ends with the text of the exception with which the
    returned error string ends. *)
Theorem handlers_log_only_errors {K} (v1 : CoreV1Api K) (i : invocation)
  (w : world K) :
  logged (snd (invoke v1 i w)) = logged w
  \/ exists (text : string) (e : exn),
       logged (snd (invoke v1 i w))
       = (logged w ++ [(ERROR, (text ++ str e)%string)])%list
       /\ fst (invoke v1 i w) = Returned (error_prefix i ++ " " ++ str e).
Proof.
  destruct i; unfold invoke, error_prefix;
    autounfold with handlers; cbv zeta; unfold try_except, bind.
  - destruct (bound None namespace) as [ns|]; [destruct (truthy ns)|];
      rewrite call_runs;
      match goal with
      | |- context [ v1 ?r (outside w) ] =>
          destruct (v1 r (outside w)) as [[pods|e] k]; cbn [fst snd];
          [|right; exists "获取 Pod 信息时出错: ", e; split; reflexivity]
      end;
      (destruct (truthy (models.items pods)); cbn [negb];
       [|left; reflexivity];
       match goal with
       | |- context [ for_append ?b ?xs ?acc ?w0 ] =>
           pose proof (for_append_world b xs pod_details_world acc w0) as Hw;
           destruct (for_append b xs acc w0) as [[l|e] w1]; simpl in Hw;
           subst w1;
           [left; reflexivity
           |right; exists "获取 Pod 信息时出错: ", e; split; reflexivity]
       end).
  - rewrite call_runs. destruct (v1 _ (outside w)) as [[a|e] k];
      [left; reflexivity
      |right; exists "获取 Pod 日志时出错: ", e; split; reflexivity].
  - rewrite call_runs. destruct (v1 _ (outside w)) as [[a|e] k];
      [left; reflexivity
      |right; exists "创建 Pod 时出错: ", e; split; reflexivity].
  - rewrite call_runs. destruct (v1 _ (outside w)) as [[a|e] k];
      [left; reflexivity
      |right; exists "创建命名空间时出错: ", e; split; reflexivity].
  - rewrite call_runs. destruct (v1 _ (outside w)) as [[a|e] k];
      [left; reflexivity
      |right; exists "删除 Pod 时出错: ", e; split; reflexivity].
  - rewrite call_runs. destruct (v1 _ (outside w)) as [[a|e] k];
      [left; reflexivity
      |right; exists "删除命名空间时出错: ", e; split; reflexivity].
  - rewrite call_runs.
    destruct (v1 _ (outside w)) as [[events|e] k]; cbn [fst snd];
      [|right; exists "获取 Pod 事件时出错: ", e; split; reflexivity].
    destruct (truthy (pod_events_of pod_name events)); cbn [negb];
      [|left; reflexivity].
    match goal with
    | |- context [ for_append ?b ?xs ?acc ?w0 ] =>
        pose proof (for_append_world b xs event_details_world acc w0) as Hw;
        destruct (for_append b xs acc w0) as [[l|e] w1]; simpl in Hw;
        subst w1;
        [left; reflexivity
        |right; exists "获取 Pod 事件时出错: ", e; split; reflexivity]
    end.
Qed.

(** X4.  When the list call returns at least one pod and every pod has
    metadata, a status with at least one container status, and a spec,
    [get_pods] returns one block per pod, in the order of the list,
    joined by the separator line; each block is the f-string of lines
    53-61 with the attributes of that pod and the state of its first
    container. *)
Theorem get_pods_lists_every_pod {K} (v1 : CoreV1Api K)
  (namespace : arg (option string)) (w w' : world K)
  (pods : models.V1PodList) :
  list_pods v1 (bound None namespace) w = (Returned pods, w') ->
  models.items pods <> [] ->
  (forall pod,
      In pod (models.items pods) ->
      exists m st c cs sp,
        models.metadata pod = Some m
        /\ models.status pod = Some st
        /\ models.container_statuses st = Some (c :: cs)
        /\ models.spec pod = Some sp) ->
  exists blocks,
    Forall2
      (fun pod b =>
         exists m st c cs sp,
           models.metadata pod = Some m
           /\ models.status pod = Some st
           /\ models.container_statuses st = Some (c :: cs)
           /\ models.spec pod = Some sp
           /\ b = nl ++ "Pod: " ++ str (models.name m) ++ nl
                  ++ "Namespace: " ++ str (models.namespace m) ++ nl
                  ++ "Status: " ++ str (models.phase st) ++ nl
                  ++ "Container Status: " ++ str (models.state c) ++ nl
                  ++ "IP: " ++ str (models.pod_ip st) ++ nl
                  ++ "Node: " ++ str (models.node_name sp) ++ nl
                  ++ "Created: " ++ str (models.creation_timestamp m) ++ nl)
      (models.items pods) blocks
    /\ fst (get_pods v1 namespace w)
       = Returned (join (nl ++ "---" ++ nl) blocks).
Proof.
  intros Hcall Hne Hall.
  assert (Hblocks : exists blocks,
             Forall2
               (fun pod b =>
                  exists m st c cs sp,
                    models.metadata pod = Some m
                    /\ models.status pod = Some st
                    /\ models.container_statuses st = Some (c :: cs)
                    /\ models.spec pod = Some sp
                    /\ b = nl ++ "Pod: " ++ str (models.name m) ++ nl
                           ++ "Namespace: " ++ str (models.namespace m) ++ nl
                           ++ "Status: " ++ str (models.phase st) ++ nl
                           ++ "Container Status: " ++ str (models.state c) ++ nl
                           ++ "IP: " ++ str (models.pod_ip st) ++ nl
                           ++ "Node: " ++ str (models.node_name sp) ++ nl
                           ++ "Created: " ++ str (models.creation_timestamp m)
                           ++ nl)
               (models.items pods) blocks
             /\ Forall2
                  (fun pod b =>
                     forall w0 : world K, pod_details pod w0 = (Returned b, w0))
                  (models.items pods) blocks).
  { clear Hcall Hne. induction (models.items pods) as [|pod l IH].
    - exists []. split; constructor.
    - destruct IH as [bs [H1 H2]].
      { intros p Hin. apply Hall. right. exact Hin. }
      destruct (Hall pod (or_introl eq_refl))
        as [m [st [c [cs [sp [Hm [Hst [Hcs Hsp]]]]]]]].
      eexists (_ :: bs). split; constructor; try assumption.
      + exists m, st, c, cs, sp. repeat split; try eassumption.
      + intro w0. apply (pod_details_returns pod m st c cs sp); assumption. }
  destruct Hblocks as [blocks [Htext Hrun]].
  exists blocks. split; [exact Htext|].
  unfold get_pods; cbv zeta. unfold try_except, bind. rewrite Hcall.
  destruct (models.items pods) as [|pod l] eqn:Ei; [now elim Hne|].
  cbn [truthy Truthy_list negb].
  rewrite (for_append_returns pod_details (pod :: l) blocks Hrun).
  reflexivity.
Qed.

Lemma get_pods_lists_every_pod_witness :
  let w := fake.start fake.busy in
  let pods := {| models.items := [fake.pod_object ("default", "demo")] |} in
  list_pods fake.v1 (bound None Omitted) w
  = (Returned pods,
     mkWorld [] [v1_call client.list_pod_for_all_namespaces] fake.busy)
  /\ models.items pods <> []
  /\ exists blocks,
       Forall2
         (fun pod b =>
            exists m st c cs sp,
              models.metadata pod = Some m
              /\ models.status pod = Some st
              /\ models.container_statuses st = Some (c :: cs)
              /\ models.spec pod = Some sp
              /\ b = nl ++ "Pod: " ++ str (models.name m) ++ nl
                     ++ "Namespace: " ++ str (models.namespace m) ++ nl
                     ++ "Status: " ++ str (models.phase st) ++ nl
                     ++ "Container Status: " ++ str (models.state c) ++ nl
                     ++ "IP: " ++ str (models.pod_ip st) ++ nl
                     ++ "Node: " ++ str (models.node_name sp) ++ nl
                     ++ "Created: " ++ str (models.creation_timestamp m) ++ nl)
         (models.items pods) blocks
       /\ fst (get_pods fake.v1 Omitted w)
          = Returned (join (nl ++ "---" ++ nl) blocks).
Proof.
  intros w pods.
  assert (Hne : models.items pods <> []) by discriminate.
  split; [reflexivity | split; [exact Hne|]].
  apply (get_pods_lists_every_pod fake.v1 Omitted w
           (mkWorld [] [v1_call client.list_pod_for_all_namespaces] fake.busy)
           pods eq_refl Hne).
  intros pod [<-|[]]. repeat eexists.
Defined.

(** X5.  [get_pods] shows the state of the first container of a pod and
    of no other: when two list answers hold pods that agree pairwise on
    metadata, spec, phase, IP and first container status, the two
    results are the same string, whatever the other container statuses
    are. *)
Theorem get_pods_first_container_only {K} (v1 v1' : CoreV1Api K)
  (namespace : arg (option string)) (w w1 w' w1' : world K)
  (pods pods' : models.V1PodList) :
  list_pods v1 (bound None namespace) w = (Returned pods, w1) ->
  list_pods v1' (bound None namespace) w' = (Returned pods', w1') ->
  Forall2
    (fun p p' =>
       models.metadata p = models.metadata p'
       /\ models.spec p = models.spec p'
       /\ match models.status p, models.status p' with
          | None, None => True
          | Some st, Some st' =>
              models.phase st = models.phase st'
              /\ models.pod_ip st = models.pod_ip st'
              /\ option_map (@hd_error _) (models.container_statuses st)
                 = option_map (@hd_error _) (models.container_statuses st')
          | _, _ => False
          end)
    (models.items pods) (models.items pods') ->
  fst (get_pods v1 namespace w) = fst (get_pods v1' namespace w').
Proof.
  intros Hcall Hcall' Hsame.
  unfold get_pods; cbv zeta. unfold try_except, bind.
  rewrite Hcall, Hcall'.
  assert (Hloop : forall acc,
             fst (for_append pod_details (models.items pods) acc w1)
             = fst (for_append pod_details (models.items pods') acc w1')).
  { intro acc. apply for_append_same.
    clear Hcall Hcall'.
    induction Hsame as [|p p' l l' [Hm [Hsp Hst]] _ IH]; constructor;
      [|exact IH].
    destruct (pod_details_pure (K := K) p) as [o Ho].
    exists o. split; [exact Ho|].
    intro w0. rewrite <- (Ho w0).
    destruct p as [md [[ph cs ip]|] sp], p' as [md' [[ph' cs' ip']|] sp'];
      simpl in Hm, Hsp, Hst; subst; try contradiction.
    - destruct Hst as [Hph [Hip Hcs]]. subst.
      destruct cs as [[|c l0]|], cs' as [[|c' l0']|];
        simpl in Hcs; try discriminate Hcs;
        try (inversion Hcs; subst);
        unfold pod_details; py_unfold;
        destruct md'; reflexivity.
    - reflexivity. }
  assert (Htruthy : truthy (models.items pods) = truthy (models.items pods')).
  { destruct Hsame; reflexivity. }
  rewrite <- Htruthy.
  destruct (truthy (models.items pods)); cbn [negb]; [|reflexivity].
  specialize (Hloop []).
  destruct (for_append pod_details (models.items pods) [] w1) as [[l|e] w2],
    (for_append pod_details (models.items pods') [] w1') as [[l'|e'] w2'];
    simpl in Hloop; try discriminate Hloop; inversion Hloop; subst;
    reflexivity.
Qed.

Lemma get_pods_first_container_only_witness :
  let pod_with statuses :=
    {| models.metadata :=
         Some {| models.name := Some "web";
                 models.namespace := Some "default";
                 models.creation_timestamp := None |};
       models.status :=
         Some {| models.phase := Some "Running";
                 models.container_statuses := Some statuses;
                 models.pod_ip := Some "10.244.0.9" |};
       models.spec := Some {| models.node_name := Some "node-1" |} |} in
  let running :=
    {| models.state := Some {| models.state_str := "{'running': {}}" |} |} in
  let waiting :=
    {| models.state := Some {| models.state_str := "{'waiting': {}}" |} |} in
  let answering (pods : list models.V1Pod) : CoreV1Api unit :=
    fun r =>
      match r as r0 return unit -> outcome (client.response r0) * unit with
      | client.list_pod_for_all_namespaces => fun k =>
          (Returned {| models.items := pods |}, k)
      | _ => fun k => (Raised fake.MaxRetryError, k)
      end in
  let w := mkWorld [] [] tt in
  fst (get_pods (answering [pod_with [running; waiting]]) Omitted w)
  = fst (get_pods (answering [pod_with [running]]) Omitted w).
Proof.
  intros pod_with running waiting answering w.
  apply (get_pods_first_container_only
           (answering [pod_with [running; waiting]])
           (answering [pod_with [running]]) Omitted w
           (mkWorld [] [v1_call client.list_pod_for_all_namespaces] tt) w
           (mkWorld [] [v1_call client.list_pod_for_all_namespaces] tt)
           {| models.items := [pod_with [running; waiting]] |}
           {| models.items := [pod_with [running]] |} eq_refl eq_refl).
  constructor; [|constructor].
  simpl. repeat split; reflexivity.
Defined.

(** X6.  One pod without container statuses loses the whole listing:
    when the pods before it are complete and it has metadata and a
    status whose [container_statuses] is [None], [get_pods] returns the
    error string of the failed subscript, and likewise with the text of
    the index error when [container_statuses] is the empty list.  No
    block of the earlier pods is returned. *)
Theorem get_pods_incomplete_pod {K} (v1 : CoreV1Api K)
  (namespace : arg (option string)) (w w' : world K)
  (pods : models.V1PodList) good bad rest m st :
  list_pods v1 (bound None namespace) w = (Returned pods, w') ->
  models.items pods = (good ++ bad :: rest)%list ->
  (forall pod,
      In pod good ->
      exists m0 st0 c cs sp,
        models.metadata pod = Some m0
        /\ models.status pod = Some st0
        /\ models.container_statuses st0 = Some (c :: cs)
        /\ models.spec pod = Some sp) ->
  models.metadata bad = Some m ->
  models.status bad = Some st ->
  (models.container_statuses st = None ->
   fst (get_pods v1 namespace w)
   = Returned "Error retrieving pods: 'NoneType' object is not subscriptable")
  /\ (models.container_statuses st = Some [] ->
      fst (get_pods v1 namespace w)
      = Returned "Error retrieving pods: list index out of range").
Proof.
  intros Hcall Hitems Hgood Hm Hst.
  assert (Hblocks : exists blocks,
             Forall2
               (fun pod b =>
                  forall w0 : world K, pod_details pod w0 = (Returned b, w0))
               good blocks).
  { clear Hitems. induction good as [|pod l IH].
    - exists []. constructor.
    - destruct IH as [bs Hbs].
      { intros p Hin. apply Hgood. right. exact Hin. }
      destruct (Hgood pod (or_introl eq_refl))
        as [m0 [st0 [c [cs [sp [Hm0 [Hst0 [Hcs Hsp]]]]]]]].
      eexists (_ :: bs). constructor; [|exact Hbs].
      intro w0. apply (pod_details_returns pod m0 st0 c cs sp); assumption. }
  destruct Hblocks as [blocks Hrun].
  assert (Hfail : forall e,
             (forall w0 : world K, pod_details bad w0 = (Raised e, w0)) ->
             fst (get_pods v1 namespace w)
             = Returned ("Error retrieving pods: " ++ str e)).
  { intros e Hbad.
    unfold get_pods; cbv zeta. unfold try_except, bind.
    rewrite Hcall, Hitems.
    replace (truthy (good ++ bad :: rest)%list) with true
      by (destruct good; reflexivity).
    cbn [negb].
    rewrite (for_append_raises pod_details good blocks bad rest e Hrun Hbad).
    reflexivity. }
  split; intro Hcs.
  - apply (Hfail TypeError_not_subscriptable).
    intro w0. unfold pod_details. rewrite Hm, Hst.
    unfold getattr, bind, ret. rewrite Hcs. reflexivity.
  - apply (Hfail IndexError_list).
    intro w0. unfold pod_details. rewrite Hm, Hst.
    unfold getattr, bind, ret. rewrite Hcs. reflexivity.
Qed.

Lemma get_pods_incomplete_pod_witness :
  let pending :=
    {| models.metadata :=
         Some {| models.name := Some "job";
                 models.namespace := Some "default";
                 models.creation_timestamp := None |};
       models.status :=
         Some {| models.phase := Some "Pending";
                 models.container_statuses := None;
                 models.pod_ip := None |};
       models.spec := Some {| models.node_name := None |} |} in
  let ready := fake.pod_object ("default", "demo") in
  let v1 : CoreV1Api unit :=
    fun r =>
      match r as r0 return unit -> outcome (client.response r0) * unit with
      | client.list_pod_for_all_namespaces => fun k =>
          (Returned {| models.items := [ready; pending; ready] |}, k)
      | _ => fun k => (Raised fake.MaxRetryError, k)
      end in
  fst (get_pods v1 Omitted (mkWorld [] [] tt))
  = Returned "Error retrieving pods: 'NoneType' object is not subscriptable".
Proof.
  intros pending ready v1.
  refine (proj1
            (get_pods_incomplete_pod v1 Omitted (mkWorld [] [] tt)
               (mkWorld [] [v1_call client.list_pod_for_all_namespaces] tt)
               {| models.items := [ready; pending; ready] |}
               [ready] pending [ready] _ _ eq_refl eq_refl _ eq_refl eq_refl)
            eq_refl).
  intros pod [<-|[]]. repeat eexists.
Defined.

(** X7.  One selected event without a source loses the whole answer:
    when the selected events before it have a source and it has none,
    [get_pod_events] returns the error string of the failed attribute
    access.  Events about other objects are filtered out before and
    play no part. *)
Theorem get_pod_events_missing_source {K} (v1 : CoreV1Api K)
  (pod_name : string) (namespace : arg string) (w : world K)
  (events : models.V1EventList) (k : K) good bad rest :
  v1 (client.list_namespaced_event (bound "default" namespace)) (outside w)
  = (Returned events, k) ->
  pod_events_of pod_name events = (good ++ bad :: rest)%list ->
  (forall ev, In ev good -> models.source ev <> None) ->
  models.source bad = None ->
  fst (get_pod_events v1 pod_name namespace w)
  = Returned
      "Error retrieving pod events: 'NoneType' object has no attribute 'component'".
Proof.
  intros Hcall Hsel Hgood Hbad.
  destruct (event_blocks_exist (K := K) good Hgood) as [blocks Hrun].
  unfold get_pod_events; cbv zeta. unfold try_except, bind.
  rewrite call_runs, Hcall. cbn [fst snd]. rewrite Hsel.
  replace (truthy (good ++ bad :: rest)%list) with true
    by (destruct good; reflexivity).
  cbn [negb].
  rewrite (for_append_raises event_details good blocks bad rest
             (AttributeError_None "component") Hrun).
  - reflexivity.
  - intro w0. unfold event_details, getattr. rewrite Hbad. reflexivity.
Qed.

Lemma get_pod_events_missing_source_witness :
  let orphan :=
    {| models.involved_object := {| models.ref_name := Some "demo" |};
       models.message := Some "Back-off restarting failed container";
       models.reason := Some "BackOff";
       models.type := Some "Warning";
       models.source := None;
       models.first_timestamp := None;
       models.last_timestamp := None |} in
  let k :=
    {| fake.kubeconfig := true; fake.in_cluster := false;
       fake.reachable := true; fake.pods := [];
       fake.events := [fake.event_object "demo" "Scheduled";
                       fake.event_object "other" "Pulled";
                       orphan] |} in
  fst (get_pod_events fake.v1 "demo" Omitted (fake.start k))
  = Returned
      "Error retrieving pod events: 'NoneType' object has no attribute 'component'".
Proof.
  intros orphan k.
  apply (get_pod_events_missing_source fake.v1 "demo" Omitted (fake.start k)
           {| models.event_items := fake.events k |} k
           [fake.event_object "demo" "Scheduled"] orphan []
           eq_refl eq_refl).
  - intros ev [<-|[]]. discriminate.
  - reflexivity.
Defined.

(** X8.  [create_namespace] sends a body of kind ["Namespace"] whose
    metadata name is the [namespace] argument and, when the request
    returns, answers ["Namespace <namespace> created."];
    [delete_namespace] asks for the deletion of that name and, when the
    request returns, answers ["Namespace <namespace> deleted."]. *)
Theorem namespace_confirmations {K} (v1 : CoreV1Api K) (namespace : string)
  (w : world K) :
  (exists body,
      calls (snd (create_namespace v1 namespace w))
      = (calls w ++ [v1_call (client.create_namespace body)])%list
      /\ path ["kind"] body = Some (PyStr "Namespace")
      /\ path ["metadata"; "name"] body = Some (PyStr namespace)
      /\ (forall k,
            v1 (client.create_namespace body) (outside w) = (Returned tt, k) ->
            fst (create_namespace v1 namespace w)
            = Returned ("Namespace " ++ namespace ++ " created.")))
  /\ calls (snd (delete_namespace v1 namespace w))
     = (calls w ++ [v1_call (client.delete_namespace namespace)])%list
  /\ (forall k,
        v1 (client.delete_namespace namespace) (outside w) = (Returned tt, k) ->
        fst (delete_namespace v1 namespace w)
        = Returned ("Namespace " ++ namespace ++ " deleted.")).
Proof.
  split; [|split].
  - exists (namespace_manifest namespace).
    split; [exact (invoke_calls_once v1 (tool_create_namespace namespace) w)|].
    split; [reflexivity | split; [reflexivity|]].
    intros k H. unfold create_namespace; cbv zeta. unfold try_except, bind.
    rewrite call_runs, H. reflexivity.
  - exact (invoke_calls_once v1 (tool_delete_namespace namespace) w).
  - intros k H. unfold delete_namespace. unfold try_except, bind.
    rewrite call_runs, H. reflexivity.
Qed.

Lemma namespace_confirmations_witness :
  let w := fake.start fake.empty in
  fake.v1 (client.delete_namespace "staging") (outside w)
  = (Returned tt, fake.empty)
  /\ fst (delete_namespace fake.v1 "staging" w)
     = Returned "Namespace staging deleted.".
Proof.
  intro w.
  destruct (namespace_confirmations fake.v1 "staging" w) as [_ [_ H]].
  split; [reflexivity|].
  apply (H fake.empty). reflexivity.
Defined.

(** X9.  The records that the configuration loading adds to the log
    tell which configuration is in use.  When the kube-config loads:
    one INFO record.  When it fails and the in-cluster configuration
    loads: a WARNING record with the text of the first exception, then
    an INFO record.  When both fail: that WARNING record, then an ERROR
    record with the text of the second exception. *)
Theorem module_init_log_records {K} (kube : kubernetes K) (w : world K) :
  let first := load_kube_config kube "kind-mcp-server" (outside w) in
  let second := load_incluster_config kube (snd first) in
  let after := logged (snd (module_init kube w)) in
  (fst first = Returned tt ->
   after = (logged w ++ [(INFO, "✅ 成功从默认位置加载Kubernetes配置")])%list)
  /\ (forall e1 : exn,
        fst first = Raised e1 ->
        fst second = Returned tt ->
        after
        = (logged w
           ++ [(WARNING,
                ("⚠️ 无法从默认位置加载Kubernetes配置: " ++ str e1)%string);
               (INFO, "✅ 成功从集群内部加载Kubernetes配置")])%list)
  /\ (forall e1 e2 : exn,
        fst first = Raised e1 ->
        fst second = Raised e2 ->
        after
        = (logged w
           ++ [(WARNING,
                ("⚠️ 无法从默认位置加载Kubernetes配置: " ++ str e1)%string);
               (ERROR, ("❌ 无法加载Kubernetes配置: " ++ str e2)%string)])%list).
Proof.
  intros first second after. subst first second after.
  unfold module_init, load_configuration. py_unfold.
  destruct (load_kube_config kube "kind-mcp-server" (outside w))
    as [[[]|e1] k1]; simpl.
  - split; [|split].
    + intros _. destruct (new_CoreV1Api kube k1); reflexivity.
    + intros e H; discriminate H.
    + intros e e' H; discriminate H.
  - destruct (load_incluster_config kube k1) as [[[]|e2] k2]; simpl.
    + split; [|split].
      * intro H; discriminate H.
      * intros e H _. inversion H; subst.
        destruct (new_CoreV1Api kube k2); simpl.
        rewrite <- app_assoc. reflexivity.
      * intros e e' _ H; discriminate H.
    + split; [|split].
      * intro H; discriminate H.
      * intros e _ H; discriminate H.
      * intros e e' H H'. inversion H; inversion H'; subst.
        destruct (new_CoreV1Api kube k2); simpl.
        rewrite <- app_assoc. reflexivity.
Qed.

(** A pod of the cluster: no kube-config, but in-cluster credentials. *)
Lemma module_init_log_records_witness :
  let k :=
    {| fake.kubeconfig := false; fake.in_cluster := true;
       fake.reachable := true; fake.pods := []; fake.events := [] |} in
  let e1 :=
    fake.ConfigException "Invalid kube-config file. No configuration found." in
  logged (snd (module_init fake.kube (fake.start k)))
  = [(WARNING,
                ("⚠️ 无法从默认位置加载Kubernetes配置: " ++ str e1)%string);
     (INFO, "✅ 成功从集群内部加载Kubernetes配置")].
Proof.
  intros k e1.
  destruct (module_init_log_records fake.kube (fake.start k)) as [_ [H _]].
  apply (H e1); reflexivity.
Defined.

(** * Further properties of the command line *)

Section StoredValues.

Variable int : string -> option Z.
Variable negative_number : string -> bool.

(** In the script's parser, the explicit argument of a [store] option is
    the text after the first equal sign of its token. *)
Lemma store_explicit_after_equal s a os e :
  argparse.parse_optional negative_number (parser int) s
  = argparse.option_tuple (Some a) os (Some e) ->
  argparse.action a <> argparse.help ->
  snd (argparse.split_eq s) = Some e.
Proof.
  intros Hp Hstore.
  assert (Habbr : argparse.parse_abbreviation negative_number (parser int) s
                  = argparse.option_tuple (Some a) os (Some e) ->
                  snd (argparse.split_eq s) = Some e).
  { unfold argparse.parse_abbreviation.
    destruct (argparse.get_option_tuples (parser int) s)
      as [|[[a0 os0] e0] [|p l]] eqn:Et.
    - destruct (negative_number s); [discriminate|].
      destruct (argparse.has_space s); discriminate.
    - intro H. inversion H; subst a0 os0 e0; clear H.
      assert (Hin : In (a, os, Some e)
                      (argparse.get_option_tuples (parser int) s))
        by (rewrite Et; left; reflexivity).
      clear Et. unfold argparse.get_option_tuples in Hin.
      destruct s as [|c0 [|c1 tail]]; try destruct Hin.
      destruct (Ascii.eqb c1 "-").
      + destruct (argparse.split_eq (String c0 (String c1 tail)))
          as [pre post].
        apply in_flat_map in Hin. destruct Hin as [[os' a'] [_ H]].
        destruct (String.prefix pre os'); [|destruct H].
        destruct H as [H|[]]. inversion H; subst. reflexivity.
      + apply in_flat_map in Hin. destruct Hin as [[os' a'] [Hosa H]].
        destruct (String.eqb os' (String c0 (String c1 ""))) eqn:Eos.
        * destruct H as [H|[]]. inversion H; subst a' os' tail; clear H.
          apply String.eqb_eq in Eos.
          apply option_string_actions_in in Hosa. destruct Hosa as [Ha Hos].
          destruct (parser_actions int a Ha)
            as [Hh|[[H1 _]|[H1 _]]]; [elim (Hstore Hh)| |];
            rewrite H1 in Hos; destruct Hos as [Hos|[]];
            rewrite Eos in Hos; discriminate Hos.
        * destruct (String.prefix _ os'); [|destruct H].
          destruct H as [H|[]]. discriminate H.
    - discriminate. }
  unfold argparse.parse_optional in Hp.
  destruct s as [|c0 rest]; [discriminate Hp|].
  destruct (negb (Ascii.eqb c0 "-")); [discriminate Hp|].
  destruct (argparse.lookup (String c0 rest)
              (argparse.option_string_actions (parser int)));
    [discriminate Hp|].
  destruct (String.eqb rest ""); [discriminate Hp|].
  destruct (argparse.split_eq (String c0 rest)) as [pre [post|]] eqn:Es.
  - destruct (argparse.lookup pre
                (argparse.option_string_actions (parser int))).
    + inversion Hp; subst. reflexivity.
    + exact (Habbr Hp).
  - exact (Habbr Hp).
Qed.

End StoredValues.

(** X10.  Whenever the script reaches [uvicorn.run], the port is 8081,
    or [int(s)] for a text [s] of the command line (a token, or the
    part of a token after its first equal sign), or the empty list; the
    host is ["0.0.0.0"], or such a text as it is, or the empty list.
    The port is never a text that [int] did not convert. *)
Theorem main_binds_given_values (int : string -> option Z)
  (negative_number : string -> bool) (argv : list string)
  (host port : argparse.value) :
  main int negative_number argv = uvicorn_run host port ->
  (host = argparse.VStr "0.0.0.0"
   \/ host = argparse.VList []
   \/ exists s,
        (In s argv
         \/ exists tok, In tok argv /\ snd (argparse.split_eq tok) = Some s)
        /\ host = argparse.VStr s)
  /\ (port = argparse.VInt 8081
      \/ port = argparse.VList []
      \/ exists s z,
           (In s argv
            \/ exists tok, In tok argv /\ snd (argparse.split_eq tok) = Some s)
           /\ int s = Some z
           /\ port = argparse.VInt z).
Proof.
  intro Hmain. unfold main, argparse.parse_args in Hmain.
  destruct (argparse.classify negative_number (parser int) argv)
    as [toks|] eqn:Ecl; [|discriminate Hmain].
  destruct (argparse.consume (parser int) toks
              (argparse.defaults (parser int) []) [] [])
    as [args|code] eqn:Ec; [|discriminate Hmain].
  pose (given := fun s : string =>
                   In s argv
                   \/ exists tok,
                        In tok argv /\ snd (argparse.split_eq tok) = Some s).
  pose (P := fun ns : argparse.Namespace =>
               (exists h,
                   argparse.attribute ns "host" = Some h
                   /\ (h = argparse.VStr "0.0.0.0"
                       \/ h = argparse.VList []
                       \/ exists s, given s /\ h = argparse.VStr s))
               /\ exists p,
                    argparse.attribute ns "port" = Some p
                    /\ (p = argparse.VInt 8081
                        \/ p = argparse.VList []
                        \/ exists s z,
                             given s /\ int s = Some z
                             /\ p = argparse.VInt z)).
  assert (Hargv : map fst toks = argv)
    by exact (classify_strings _ _ _ _ Ecl).
  assert (Hconv : forall seen ns ns',
             argparse.convert_defaults (parser int) seen ns = Some ns' ->
             P ns -> P ns').
  {
    intros seen ns ns' Hcd [[h [Hh Hhc]] [p [Hp Hpc]]].
      destruct (parser_defaults_kept int seen ns) as [ns'' [Hcd' Hattr]].
      rewrite Hcd in Hcd'. inversion Hcd'; subst ns''.
      split; [exists h | exists p]; rewrite Hattr; split; assumption.
  }
  assert (Hstore : forall s a os e arg v ns0,
             In (s, argparse.O (Some a) os e) toks ->
             e = Some arg \/ In (arg, argparse.A) toks ->
             argparse.get_values a [arg] = Some v ->
             P ns0 -> P (argparse.setattr ns0 (argparse.dest a) v)).
  {
    intros s a os e arg v ns0 Hin Harg Hv [[h [Hh Hhc]] [p [Hp Hpc]]].
      pose proof (classify_option _ _ _ _ _ _ _ _ Ecl Hin) as Hpo.
      assert (Hgiven : argparse.action a <> argparse.help -> given arg).
      { intro Hstore. destruct Harg as [He|Hplain].
        - subst e. right. exists s. split.
          + rewrite <- Hargv.
            apply (in_map fst toks (s, argparse.O (Some a) os (Some arg))).
            exact Hin.
          + exact (store_explicit_after_equal int negative_number
                     s a os arg Hpo Hstore).
        - left. rewrite <- Hargv.
          apply (in_map fst toks (arg, argparse.A)). exact Hplain. }
      apply parse_optional_in in Hpo. destruct Hpo as [Hact _].
      destruct (parser_actions int a Hact)
        as [Hh'|[[_ [Hd Ha]]|[_ [Hd Ha]]]].
      + assert (Hdest : argparse.dest a = "help").
        { destruct Hact as [H|[H|[H|[]]]]; subst a; try discriminate Hh';
            reflexivity. }
        rewrite Hdest. split; [exists h | exists p];
          (rewrite attribute_setattr_other by discriminate);
          split; assumption.
      + rewrite Hd. split.
        * exists v. split; [apply attribute_setattr_same|].
          unfold argparse.get_values in Hv. simpl in Hv. rewrite Ha in Hv.
          destruct (String.eqb arg "--").
          -- simpl in Hv. inversion Hv. right; left; reflexivity.
          -- unfold argparse.get_value in Hv. rewrite Ha in Hv.
             inversion Hv. right; right. exists arg.
             split; [|reflexivity].
             apply Hgiven. rewrite Ha. discriminate.
        * exists p. rewrite attribute_setattr_other by discriminate.
          split; assumption.
      + rewrite Hd. split.
        * exists h. rewrite attribute_setattr_other by discriminate.
          split; assumption.
        * exists v. split; [apply attribute_setattr_same|].
          unfold argparse.get_values in Hv. simpl in Hv. rewrite Ha in Hv.
          destruct (String.eqb arg "--").
          -- simpl in Hv. inversion Hv. right; left; reflexivity.
          -- unfold argparse.get_value in Hv. rewrite Ha in Hv.
             unfold type_int in Hv.
             destruct (int arg) as [z|] eqn:Ez; [|discriminate Hv].
             inversion Hv. right; right. exists arg, z.
             split; [|split; [exact Ez | reflexivity]].
             apply Hgiven. rewrite Ha. discriminate.
  }
  assert (HP0 : P (argparse.defaults (parser int) [])).
  {
    split.
      + exists (argparse.VStr "0.0.0.0"). split; [reflexivity | left; reflexivity].
      + exists (argparse.VInt 8081). split; [reflexivity | left; reflexivity].
  }
  pose proof (consume_invariant (parser int) P _ Hconv toks (le_n _)
                _ _ _ _ Hstore HP0 Ec) as HP.
  destruct HP as [[h [Hh Hhc]] [p [Hp Hpc]]].
  rewrite Hh, Hp in Hmain. inversion Hmain; subst.
  split; assumption.
Qed.

Lemma main_binds_given_values_witness :
  (argparse.VStr "10.0.0.7" = argparse.VStr "0.0.0.0"
   \/ argparse.VStr "10.0.0.7" = argparse.VList []
   \/ exists s,
        (In s ["--host=10.0.0.7"; "--port"; "9000"]
         \/ exists tok,
              In tok ["--host=10.0.0.7"; "--port"; "9000"]
              /\ snd (argparse.split_eq tok) = Some s)
        /\ argparse.VStr "10.0.0.7" = argparse.VStr s)
  /\ (argparse.VInt 9000 = argparse.VInt 8081
      \/ argparse.VInt 9000 = argparse.VList []
      \/ exists s z,
           (In s ["--host=10.0.0.7"; "--port"; "9000"]
            \/ exists tok,
                 In tok ["--host=10.0.0.7"; "--port"; "9000"]
                 /\ snd (argparse.split_eq tok) = Some s)
           /\ fake.int s = Some z
           /\ argparse.VInt 9000 = argparse.VInt z).
Proof.
  apply (main_binds_given_values fake.int fake.negative_number
           ["--host=10.0.0.7"; "--port"; "9000"]
           (argparse.VStr "10.0.0.7") (argparse.VInt 9000)).
  reflexivity.
Defined.

(** X11.  An option given again at the end of a command line replaces
    the earlier value and leaves the other option as it was.  When a
    command line starts the server with a host and a port, and [h] is
    a token that the parser reads as a plain argument (not as an
    option, an abbreviation or the [--]), the same line followed by
    [--host h] starts it with [h] and that port; when moreover
    [int(s)] is [z], the line followed by [--port s] starts it with
    that host and [z]. *)
Theorem main_last_option_wins (int : string -> option Z)
  (negative_number : string -> bool) (argv : list string)
  (host port : argparse.value) :
  main int negative_number argv = uvicorn_run host port ->
  (forall h,
      argparse.parse_optional negative_number (parser int) h
      = argparse.positional ->
      main int negative_number (argv ++ ["--host"; h])
      = uvicorn_run (argparse.VStr h) port)
  /\ (forall s z,
        argparse.parse_optional negative_number (parser int) s
        = argparse.positional ->
        int s = Some z ->
        main int negative_number (argv ++ ["--port"; s])
        = uvicorn_run host (argparse.VInt z)).
Proof.
  intro Hmain.
  unfold main, argparse.parse_args in Hmain.
  destruct (argparse.classify negative_number (parser int) argv)
    as [toks|] eqn:Ecl; [|discriminate Hmain].
  destruct (argparse.consume (parser int) toks
              (argparse.defaults (parser int) []) [] [])
    as [args|code] eqn:Ec; [|discriminate Hmain].
  destruct (argparse.attribute args "host") as [host'|] eqn:Eh;
    [|discriminate Hmain].
  destruct (argparse.attribute args "port") as [port'|] eqn:Ep;
    [|discriminate Hmain].
  inversion Hmain; subst host' port'; clear Hmain.
  destruct (consume_parsed (parser int) _ (parser_defaults_kept int)
              _ (le_n _) _ _ _ _ Ec) as [_ [Hnodash _]].
  destruct (consume_app (parser int) _ (parser_defaults_kept int)
              _ (le_n _) _ _ _ _ Ec) as [ns1 [seen1 [Hattr Happ]]].
  rewrite Hattr in Eh, Ep.
  split.
  - intros h Hh.
    assert (Hmore :
              argparse.classify negative_number (parser int) ["--host"; h]
              = Some [("--host",
                       argparse.O
                         (Some {| argparse.option_strings := ["--host"];
                                  argparse.dest := "host";
                                  argparse.action :=
                                    argparse.store None
                                      (argparse.VStr "0.0.0.0") |})
                         "--host" None);
                      (h, argparse.A)]).
    { cbn [argparse.classify].
      rewrite (positional_not_dashdash int negative_number h Hh), Hh.
      reflexivity. }
    unfold main, argparse.parse_args.
    rewrite (classify_app _ _ _ _ _ Ecl Hnodash), Hmore.
    cbn [option_map]. rewrite Happ.
    match goal with
    | |- context [ argparse.consume ?p ((?s, argparse.O (Some ?a) ?os None) :: ?rest) ?ns ?seen ?ex ] =>
        rewrite (consume_store_following p s a os rest ns seen ex
                   None (argparse.VStr "0.0.0.0") eq_refl)
    end.
    unfold argparse.get_values. cbn [argparse.remove_dashdash].
    rewrite (positional_not_dashdash int negative_number h Hh).
    cbn [argparse.action argparse.get_value argparse.dest argparse.consume
         argparse.option_strings].
    match goal with
    | |- context [ argparse.convert_defaults (parser int) ?seen ?ns ] =>
        destruct (parser_defaults_kept int seen ns) as [ns' [Hcd Hattr']];
        rewrite Hcd
    end.
    rewrite !Hattr'. rewrite attribute_setattr_same.
    rewrite attribute_setattr_other by discriminate.
    rewrite Ep. reflexivity.
  - intros s z Hs Hz.
    assert (Hmore :
              argparse.classify negative_number (parser int) ["--port"; s]
              = Some [("--port",
                       argparse.O
                         (Some {| argparse.option_strings := ["--port"];
                                  argparse.dest := "port";
                                  argparse.action :=
                                    argparse.store (Some (type_int int))
                                      (argparse.VInt 8081) |})
                         "--port" None);
                      (s, argparse.A)]).
    { cbn [argparse.classify].
      rewrite (positional_not_dashdash int negative_number s Hs), Hs.
      reflexivity. }
    unfold main, argparse.parse_args.
    rewrite (classify_app _ _ _ _ _ Ecl Hnodash), Hmore.
    cbn [option_map]. rewrite Happ.
    match goal with
    | |- context [ argparse.consume ?p ((?t, argparse.O (Some ?a) ?os None) :: ?rest) ?ns ?seen ?ex ] =>
        rewrite (consume_store_following p t a os rest ns seen ex
                   (Some (type_int int)) (argparse.VInt 8081) eq_refl)
    end.
    unfold argparse.get_values. cbn [argparse.remove_dashdash].
    rewrite (positional_not_dashdash int negative_number s Hs).
    cbn [argparse.action argparse.get_value argparse.dest argparse.consume
         argparse.option_strings].
    unfold type_int. rewrite Hz.
    match goal with
    | |- context [ argparse.convert_defaults (parser int) ?seen ?ns ] =>
        destruct (parser_defaults_kept int seen ns) as [ns' [Hcd Hattr']];
        rewrite Hcd
    end.
    rewrite !Hattr'. rewrite attribute_setattr_same.
    rewrite attribute_setattr_other by discriminate.
    rewrite Eh. reflexivity.
Qed.

Lemma main_last_option_wins_witness :
  main fake.int fake.negative_number
    ["--port"; "8000"; "--host"; "10.0.0.7"; "--port"; "9000"]
  = uvicorn_run (argparse.VStr "10.0.0.7") (argparse.VInt 9000).
Proof.
  destruct (main_last_option_wins fake.int fake.negative_number
              ["--port"; "8000"; "--host"; "10.0.0.7"]
              (argparse.VStr "10.0.0.7") (argparse.VInt 8000) eq_refl)
    as [_ H].
  apply (H "9000" 9000%Z); reflexivity.
Defined.
